(** * TimeMaster: the task composable (useTasks.js) and the task card

    A shallow embedding of the local (browser-only) mode of
    [src/composables/useTasks.js], of the progress bar and the buttons of
    [src/components/TaskCard.vue], of the form of
    [src/components/AddTaskDialog.vue] and of the handlers of
    [src/views/TimeMasterPanel.vue] that call the composable.

    [useTasks.js] has two modes, chosen once by [isTauri].  With the native
    shell present every command is forwarded with [invoke] to handlers that
    are not part of these sources and the list is read back; without it the
    composable implements the commands itself on the array [tasks.value].
    The development below is about the second mode, the only one whose
    behaviour is written in these sources.

    Conventions of the embedding.
    - A JavaScript value that may be [undefined], [null] or a value of type
      [A] is a [js A].
    - A plain object handed to a command (a payload) is a record of optional
      properties: [None] is a key the object does not own, [Some v] an own
      property holding [v].
    - A number is a double, taken as the rational [Q] it denotes ([NaN]
      and the infinities, which neither the dialog nor JSON produces, are
      left out).  The number input of the dialog has no precision, so a
      target need not be whole.  Comparisons of numbers are exact.  Where
      the code computes a number (the sum [progress + 1], the quotients of
      the progress bar and of the statistics) the result is the exact one
      rounded to the nearest double; the rounding is a parameter [fl], of
      which a theorem assumes only what it states.  Counts of tasks are
      integers [Z].
    - [new Date().toISOString()] and the generated id are inputs of the
      command that reads them.
    - [String.prototype.localeCompare] is a parameter of the development:
      its result depends on the host's collation. *)

From Stdlib Require Import List ZArith QArith Qround String Bool Lia Lqa.
From Stdlib Require Import Permutation Sorted.
Import ListNotations.

Local Open Scope string_scope.
Local Open Scope list_scope.
Local Open Scope Z_scope.

(** ** JavaScript values and objects *)

Inductive js (A : Type) : Type :=
| undefined
| null
| val (a : A).

Arguments undefined {A}.
Arguments null {A}.
Arguments val {A} a.

(** [v ?? d] *)
Definition nullish {A : Type} (v : js A) (d : A) : A :=
  match v with
  | val a => a
  | _ => d
  end.

(** [v ?? null] *)
Definition orNull {A : Type} (v : js A) : js A :=
  match v with
  | val a => val a
  | _ => null
  end.

Notation "v ?? d" := (nullish v d) (at level 40, left associativity).

(** [a === b] on values that are strings, [null] or [undefined]. *)
Definition strictEq (a b : js string) : bool :=
  match a, b with
  | undefined, undefined => true
  | null, null => true
  | val x, val y => String.eqb x y
  | _, _ => false
  end.

(** [a < b] and [a <= b] on numbers. *)
Definition numLt (a b : Q) : bool := negb (Qle_bool b a).

Definition numLe (a b : Q) : bool := Qle_bool a b.

(** An own property of an object, or its absence. *)
Definition prop (A : Type) : Type := option (js A).

(** [o.key]: reading a key the object does not own gives [undefined]. *)
Definition get {A : Type} (p : prop A) : js A :=
  match p with
  | Some v => v
  | None => undefined
  end.

(** One key of [{ ...a, ...b }]: an own property of [b] wins, whatever it
    holds. *)
Definition over {A : Type} (a b : prop A) : prop A :=
  match b with
  | Some _ => b
  | None => a
  end.

(** ** Tasks *)

(** The object [normalizeTask] builds.  [id], [name] and [type] are copied
    without a default and may be nullish; the date and repeat fields are
    strings or [null]. *)
Record Task : Type := mkTask {
  id : js string;
  name : js string;
  description : string;
  type : js string;
  progress : Q;
  target : Q;
  repeatRule : js string;
  startDate : js string;
  endDate : js string;
  status : string;
  createdAt : string;
  updatedAt : string
}.

(** The keys of a payload that [normalizeTask] reads.  Other keys (the
    dialog's [repeat] and [dateRange]) are never read in local mode. *)
Record Payload : Type := mkPayload {
  p_id : prop string;
  p_name : prop string;
  p_description : prop string;
  p_type : prop string;
  p_progress : prop Q;
  p_target : prop Q;
  p_repeatRule : prop string;
  p_startDate : prop string;
  p_endDate : prop string;
  p_status : prop string;
  p_createdAt : prop string;
  p_updatedAt : prop string
}.

Definition emptyObject : Payload :=
  mkPayload None None None None None None None None None None None None.

(** A task seen as an object: every key is an own property. *)
Definition toObject (t : Task) : Payload :=
  mkPayload (Some (id t)) (Some (name t)) (Some (val (description t)))
            (Some (type t)) (Some (val (progress t))) (Some (val (target t)))
            (Some (repeatRule t)) (Some (startDate t)) (Some (endDate t))
            (Some (val (status t))) (Some (val (createdAt t)))
            (Some (val (updatedAt t))).

(** [{ ...a, ...b }] *)
Definition spread (a b : Payload) : Payload :=
  mkPayload (over (p_id a) (p_id b)) (over (p_name a) (p_name b))
            (over (p_description a) (p_description b))
            (over (p_type a) (p_type b))
            (over (p_progress a) (p_progress b))
            (over (p_target a) (p_target b))
            (over (p_repeatRule a) (p_repeatRule b))
            (over (p_startDate a) (p_startDate b))
            (over (p_endDate a) (p_endDate b))
            (over (p_status a) (p_status b))
            (over (p_createdAt a) (p_createdAt b))
            (over (p_updatedAt a) (p_updatedAt b)).

(** [{ ...o, id: i }] and [{ ...o, updatedAt: now }] *)
Definition withId (o : Payload) (i : string) : Payload :=
  mkPayload (Some (val i)) (p_name o) (p_description o) (p_type o)
            (p_progress o) (p_target o) (p_repeatRule o) (p_startDate o)
            (p_endDate o) (p_status o) (p_createdAt o) (p_updatedAt o).

Definition withUpdatedAt (o : Payload) (now : string) : Payload :=
  mkPayload (p_id o) (p_name o) (p_description o) (p_type o)
            (p_progress o) (p_target o) (p_repeatRule o) (p_startDate o)
            (p_endDate o) (p_status o) (p_createdAt o) (Some (val now)).

(** [normalizeTask].  [now1] and [now2] are what the clock gives if
    [createdAt], respectively [updatedAt], has to be filled in. *)
Definition normalizeTask (now1 now2 : string) (payload : Payload) : Task :=
  {| id := get (p_id payload);
     name := get (p_name payload);
     description := get (p_description payload) ?? "";
     type := get (p_type payload);
     progress := get (p_progress payload) ?? 0%Q;
     target := get (p_target payload) ?? 1%Q;
     repeatRule := orNull (get (p_repeatRule payload));
     startDate := orNull (get (p_startDate payload));
     endDate := orNull (get (p_endDate payload));
     status := get (p_status payload) ?? "active";
     createdAt := get (p_createdAt payload) ?? now1;
     updatedAt := get (p_updatedAt payload) ?? now2 |}.

(** Assignments to one field of a task object. *)
Definition set_progress (t : Task) (n : Q) : Task :=
  mkTask (id t) (name t) (description t) (type t) n (target t)
         (repeatRule t) (startDate t) (endDate t) (status t) (createdAt t)
         (updatedAt t).

Definition set_status (t : Task) (s : string) : Task :=
  mkTask (id t) (name t) (description t) (type t) (progress t) (target t)
         (repeatRule t) (startDate t) (endDate t) s (createdAt t)
         (updatedAt t).

Definition set_updatedAt (t : Task) (now : string) : Task :=
  mkTask (id t) (name t) (description t) (type t) (progress t) (target t)
         (repeatRule t) (startDate t) (endDate t) (status t) (createdAt t)
         now.

(** ** Arrays *)

(** [l.findIndex(p)]; [None] stands for [-1]. *)
Fixpoint findIndex {A : Type} (p : A -> bool) (l : list A) : option nat :=
  match l with
  | [] => None
  | x :: l' => if p x then Some O
               else match findIndex p l' with
                    | Some i => Some (S i)
                    | None => None
                    end
  end.

(** [l.splice(i, 1, x)] *)
Definition splice1 {A : Type} (i : nat) (x : A) (l : list A) : list A :=
  firstn i l ++ x :: skipn (S i) l.

(** The array after the object [l.find(p)] has been assigned to in place:
    the first element satisfying [p] becomes [f] of itself. *)
Fixpoint mutateFound {A : Type} (p : A -> bool) (f : A -> A) (l : list A)
  : list A :=
  match l with
  | [] => []
  | x :: l' => if p x then f x :: l' else x :: mutateFound p f l'
  end.

(** [l[i]] *)
Definition at_index {A : Type} (l : list A) (i : nat) : js A :=
  match nth_error l i with
  | Some x => val x
  | None => undefined
  end.

(** [fallbackSeeds].  The keys [repeat] and [dateRange] of the second and
    third seed are not keys [normalizeTask] reads. *)
Definition fallbackSeeds : list Payload :=
  [ mkPayload None (Some (val "产品发布检查清单"))
      (Some (val "完成上线前的最终核对事项。")) (Some (val "once")) None
      (Some (val 5%Q)) None None None None None None;
    mkPayload None (Some (val "周例会准备"))
      (Some (val "整理项目进展并输出会议提纲。")) (Some (val "cycle")) None
      (Some (val 1%Q)) None None None None None None;
    mkPayload None (Some (val "英语学习计划"))
      (Some (val "长期积累词汇并练习口语。")) (Some (val "long_term")) None
      (Some (val 30%Q)) None None None None None None ].

(** What one call of [normalizeTask] on a new task takes from its
    surroundings: the generated id and the two clock readings. *)
Record Stamp : Type := mkStamp {
  newId : string;
  created : string;
  updated : string
}.

(** [seeds.map(item => normalizeTask({ ...item, id: ... }))], the [k]-th
    call and those after it, [stamp n] being what the [n]-th call takes. *)
Fixpoint seedTasks (stamp : nat -> Stamp) (k : nat) (seeds : list Payload)
  : list Task :=
  match seeds with
  | [] => []
  | item :: rest =>
      normalizeTask (created (stamp k)) (updated (stamp k))
        (withId item (newId (stamp k)))
      :: seedTasks stamp (S k) rest
  end.

(** ** The local store *)

Section LocalStore.

(** [a.localeCompare(b)]: negative, zero or positive. *)
Variable localeCompare : string -> string -> Z.

(** The sum [task.progress + 1] is a double: the exact sum rounded to the
    nearest double.  [fl] is that rounding. *)
Variable fl : Q -> Q.

(** The comparator of [sortTasks]:
    [(a, b) => (b.updatedAt ?? "").localeCompare(a.updatedAt ?? "")]. *)
Definition compareTasks (a b : Task) : Z :=
  localeCompare (val (updatedAt b) ?? "") (val (updatedAt a) ?? "").

(** [Array.prototype.sort] is a stable sort: with a consistent comparator
    its result is the one stable sorted rearrangement of the array, which
    insertion from the right computes.  [x] goes before the first [y] it
    does not have to follow. *)
Fixpoint insertTask (x : Task) (l : list Task) : list Task :=
  match l with
  | [] => [x]
  | y :: l' => if compareTasks x y <=? 0 then x :: y :: l'
               else y :: insertTask x l'
  end.

(** [sortTasks]: [tasks.value = [...tasks.value].sort(...)] *)
Definition sortTasks (tasks : list Task) : list Task :=
  fold_right insertTask [] tasks.

(** [item => item.id === i] *)
Definition hasId (i : js string) (item : Task) : bool := strictEq (id item) i.

(** [tasks.value.find(item => item.id === i)] *)
Definition findTask (i : js string) (tasks : list Task) : option Task :=
  find (hasId i) tasks.

(** [addTask(payload)].  [newId] is the generated id, [now1] and [now2] the
    clock readings of [normalizeTask]. *)
Definition addTask (newId now1 now2 : string) (payload : Payload)
    (tasks : list Task) : list Task * js Task :=
  let tasks1 := normalizeTask now1 now2 (withId payload newId) :: tasks in
  let tasks2 := sortTasks tasks1 in
  (tasks2, at_index tasks2 0).

(** The object [updateTask] puts in place of [old]:
    [normalizeTask({ ...old, ...payload, updatedAt: now })].  [now1] is the
    later clock reading [normalizeTask] would use for [createdAt]. *)
Definition edited (now now1 : string) (payload old : Payload) : Task :=
  normalizeTask now1 now (withUpdatedAt (spread old payload) now).

(** [updateTask(payload)] *)
Definition updateTask (now now1 : string) (payload : Payload)
    (tasks : list Task) : list Task * js Task :=
  match findIndex (hasId (get (p_id payload))) tasks with
  | Some index =>
      let old := match nth_error tasks index with
                 | Some t => toObject t
                 | None => emptyObject
                 end in
      let tasks1 := splice1 index (edited now now1 payload old) tasks in
      let tasks2 := sortTasks tasks1 in
      (tasks2, at_index tasks2 index)
  | None => (tasks, null)
  end.

(** [deleteTask(id)]: a bare [return]. *)
Definition deleteTask (i : js string) (tasks : list Task)
  : list Task * js Task :=
  (filter (fun task => negb (strictEq (id task) i)) tasks, undefined).

(** The assignments of [increaseProgress] to the found task, made when
    [task.progress < task.target].  [task.progress += 1] stores the sum as a
    double, and the test [task.progress >= task.target] that follows reads
    the stored sum. *)
Definition increased (now : string) (task : Task) : Task :=
  let task1 := set_progress task (fl (progress task + 1)%Q) in
  let task2 :=
    if numLe (target task1) (progress task1)
       && negb (String.eqb (status task1) "archived")
    then set_status task1 "completed"
    else task1 in
  set_updatedAt task2 now.

(** [increaseProgress(id)] *)
Definition increaseProgress (now : string) (i : js string)
    (tasks : list Task) : list Task * js Task :=
  match findTask i tasks with
  | None => (tasks, null)
  | Some task =>
      if numLt (progress task) (target task)
      then (sortTasks (mutateFound (hasId i) (increased now) tasks),
            val (increased now task))
      else (tasks, val task)
  end.

(** The assignments of [archiveTask] to the found task. *)
Definition archived (now : string) (task : Task) : Task :=
  set_updatedAt (set_status task "archived") now.

(** [archiveTask(id)] *)
Definition archiveTask (now : string) (i : js string) (tasks : list Task)
  : list Task * js Task :=
  match findTask i tasks with
  | Some task => (sortTasks (mutateFound (hasId i) (archived now) tasks),
                  val (archived now task))
  | None => (tasks, null)
  end.

(** The assignments of [reopenTask] to the found task. *)
Definition reopened (now : string) (task : Task) : Task :=
  let task1 := set_status task "active" in
  let task2 := if strictEq (type task1) (val "cycle")
               then set_progress task1 0
               else task1 in
  set_updatedAt task2 now.

(** [reopenTask(id)] *)
Definition reopenTask (now : string) (i : js string) (tasks : list Task)
  : list Task * js Task :=
  match findTask i tasks with
  | Some task => (sortTasks (mutateFound (hasId i) (reopened now) tasks),
                  val (reopened now task))
  | None => (tasks, null)
  end.

(** [refreshTasks()]: the store and the [loaded] flag after the call. *)
Definition refreshTasks (stamp : nat -> Stamp) (loaded : bool)
    (tasks : list Task) : list Task * bool :=
  if negb loaded && (List.length tasks =? 0)%nat
  then (sortTasks (seedTasks stamp 0 fallbackSeeds), true)
  else (tasks, loaded).

(** The loop of [importTasks]: one [addTask] per item, each with the
    readings its call takes. *)
Fixpoint addEach (items : list (Stamp * Payload)) (tasks : list Task)
  : list Task :=
  match items with
  | [] => tasks
  | (st, item) :: rest =>
      addEach rest
        (fst (addTask (newId st) (created st) (updated st) item tasks))
  end.

(** [importTasks(taskList)] *)
Definition importTasks (items : list (Stamp * Payload)) (tasks : list Task)
  : list Task :=
  match items with
  | [] => tasks
  | _ => sortTasks (addEach items tasks)
  end.

(** The three computed lists the panel shows. *)
Definition activeTasks (tasks : list Task) : list Task :=
  filter (fun task => String.eqb (status task) "active") tasks.

Definition completedTasks (tasks : list Task) : list Task :=
  filter (fun task => String.eqb (status task) "completed") tasks.

Definition archivedTasks (tasks : list Task) : list Task :=
  filter (fun task => String.eqb (status task) "archived") tasks.

(** *** Command sequences *)

Inductive Command : Type :=
| Create (newId now1 now2 : string) (payload : Payload)
| Edit (now now1 : string) (payload : Payload)
| Delete (i : js string)
| IncreaseProgress (now : string) (i : js string)
| Archive (now : string) (i : js string)
| Reopen (now : string) (i : js string).

Definition exec (c : Command) (tasks : list Task) : list Task * js Task :=
  match c with
  | Create newId now1 now2 payload => addTask newId now1 now2 payload tasks
  | Edit now now1 payload => updateTask now now1 payload tasks
  | Delete i => deleteTask i tasks
  | IncreaseProgress now i => increaseProgress now i tasks
  | Archive now i => archiveTask now i tasks
  | Reopen now i => reopenTask now i tasks
  end.

(** The store after a sequence of commands, oldest first. *)
Definition run (cs : list Command) (tasks : list Task) : list Task :=
  fold_left (fun ts c => fst (exec c ts)) cs tasks.

End LocalStore.

(** ** Properties the specification speaks of *)

(** [0 <= progress <= target] *)
Definition withinTarget (t : Task) : Prop :=
  (0 <= progress t <= target t)%Q.

(** The one way a command of the local mode reports that it did nothing:
    it returns [null].  No command throws. *)
Definition rejected (r : js Task) : Prop := r = null.

Section Order.

Variable localeCompare : string -> string -> Z.

(** Most recently updated first: whenever [a] stands before [b] in the
    list, the update time of [b] does not sort after that of [a]
    ([localeCompare] of the two is not positive). *)
Definition descending (tasks : list Task) : Prop :=
  StronglySorted
    (fun a b => localeCompare (updatedAt b) (updatedAt a) <= 0) tasks.

(** The update times of [t] and [u] sort alike. *)
Definition tied (t u : Task) : bool :=
  localeCompare (updatedAt u) (updatedAt t) =? 0.

(** What [Array.prototype.sort] asks of a comparator, said of
    [localeCompare]: swapping the operands flips the sign, and the order is
    transitive. *)
Definition consistent : Prop :=
  (forall a b, Z.sgn (localeCompare a b) = - Z.sgn (localeCompare b a))
  /\ (forall a b c, localeCompare a b <= 0 -> localeCompare b c <= 0 ->
                    localeCompare a c <= 0).

End Order.

(** ** Rounding to the nearest double *)

(** What rounding to the nearest double guarantees of the sum in
    [increaseProgress]: it keeps the order, and it leaves a whole number
    between -2^53 and 2^53 as it is. *)
Definition monotone (fl : Q -> Q) : Prop :=
  forall x y, (x <= y)%Q -> (fl x <= fl y)%Q.

Definition exactOnCounts (fl : Q -> Q) : Prop :=
  forall z : Z, - 2 ^ 53 <= z <= 2 ^ 53 -> (fl (inject_Z z) == inject_Z z)%Q.

(** The sums of the concrete runs below are small whole numbers, which
    doubles hold exactly: no rounding takes place. *)
Definition noRounding (x : Q) : Q := x.

(** A collation that orders strings by their code units, the order of the
    fixed width timestamps of [toISOString].  It instantiates
    [localeCompare] in the concrete runs below. *)
Definition codeUnitCompare (a b : string) : Z :=
  match String.compare a b with
  | Eq => 0
  | Lt => -1
  | Gt => 1
  end.

(** ** The progress bar of the task card *)

Module TaskCard.

Section ProgressBar.

(** The quotient [progress / target] and its product with [100] are
    doubles: each is the exact result rounded to the nearest double.  [fl]
    is that rounding. *)
Variable fl : Q -> Q.

(** [target || 1]: a missing, [null] or zero target gives [1]. *)
Definition orOne (target : js Q) : Q :=
  match target with
  | val t => if Qeq_bool t 0 then 1%Q else t
  | _ => 1%Q
  end.

(** [Math.round]: the nearest integer, a tie going up. *)
Definition Math_round (x : Q) : Z := Qfloor (x + (1 # 2))%Q.

(** The body of [progressPercentage], on the two fields it reads. *)
Definition percentage (progress : Q) (target : js Q) : Z :=
  let target := orOne target in
  Z.min 100
    (Math_round (fl (fl (progress / target) * inject_Z 100)))%Q.

(** [progressPercentage] for a task of the store. *)
Definition progressPercentage (task : Task) : Z :=
  percentage (progress task) (val (target task)).

(** What rounding to the nearest double guarantees and the bounds need:
    it is monotone and leaves zero alone. *)
Definition rounding : Prop :=
  (forall x y, (x <= y)%Q -> (fl x <= fl y)%Q) /\ (fl 0 == 0)%Q.

End ProgressBar.

End TaskCard.

(** ** Concrete data for the runs below *)

(** The payload [handleSave] of the dialog emits:
    [{ id, name, description, type, target, repeat, dateRange }]. *)
Definition formPayload (i : js string) (nm ds ty : string) (tg : Q)
  : Payload :=
  mkPayload (Some i) (Some (val nm)) (Some (val ds)) (Some (val ty)) None
            (Some (val tg)) None None None None None None.

Definition day1 : string := "2025-01-01T08:00:00.000Z".
Definition day2 : string := "2025-01-02T08:00:00.000Z".
Definition day3 : string := "2025-01-03T08:00:00.000Z".
Definition day4 : string := "2025-01-04T08:00:00.000Z".
Definition day5 : string := "2025-01-05T08:00:00.000Z".

(** A stored task with the given id, kind, counters, status and update
    time. *)
Definition sample (i ty : string) (p tg : Q) (st upd : string) : Task :=
  mkTask (val i) (val "report") "" (val ty) p tg null null null st day1 upd.

(** A store of three archived or completed tasks, newest first. *)
Definition weekly : Task := sample "a" "cycle" 3 3 "archived" day3.
Definition release : Task := sample "b" "once" 1 1 "archived" day2.
Definition english : Task := sample "c" "long_term" 30 30 "completed" day1.
Definition shelf : list Task := [weekly; release; english].

(** A session with the dialog and the cards: two tasks are created, the
    first is advanced, archived and reopened, the second is deleted. *)
Definition session : list Command :=
  [ Create "a" day1 day1 (formPayload null "weekly report" "" "cycle" 2);
    Create "b" day2 day2 (formPayload null "release" "" "once" 1);
    IncreaseProgress day3 (val "a");
    Archive day4 (val "a");
    Reopen day5 (val "a");
    Delete (val "b") ].

(** An archived task still short of its target, and an active one that is
    five steps into a target of eight. *)
Definition draft : Task := sample "d" "once" 0 2 "archived" day1.
Definition chapters : Task := sample "e" "once" 5 8 "active" day1.

(** The dialog saved with the target lowered to three, and with the kind
    switched to ["cycle"]. *)
Definition lowerTarget : Payload := formPayload (val "e") "report" "" "once" 3.
Definition switchKind : Payload := formPayload (val "e") "report" "" "cycle" 8.

(** A session that ends with the target lowered below the progress made. *)
Definition overshoot : list Command :=
  [ Create "e" day1 day1 (formPayload null "report" "" "once" 2);
    IncreaseProgress day2 (val "e");
    IncreaseProgress day3 (val "e");
    Edit day4 day4 (formPayload (val "e") "report" "" "once" 1) ].

(** ** What the panel feeds the composable *)

(** Counters as the dialog and the cards produce them: progress counted up
    from zero, target above zero. *)
Definition counted (t : Task) : Prop :=
  (0 <= progress t /\ 0 < target t)%Q.

(** A command as the panel issues it: the payload of a create or an edit is
    the dialog's, whose validator lets no target through that is not above
    zero. *)
Definition fromPanel (c : Command) : Prop :=
  match c with
  | Create _ _ _ payload | Edit _ _ payload =>
      exists i nm ds ty tg,
        payload = formPayload i nm ds ty tg /\ (0 < tg)%Q
  | _ => True
  end.

(** The id a create generates is not in use. *)
Definition freshId (c : Command) (tasks : list Task) : Prop :=
  match c with
  | Create newId _ _ _ => ~ In (val newId) (map id tasks)
  | _ => True
  end.

(** The two scenarios of the specification: a weekly task taken through a
    whole cycle, and a one-shot task archived and reopened. *)
Definition cycleScenario : list Command :=
  [ Create "w" day1 day1 (formPayload null "weekly report" "" "cycle" 3);
    IncreaseProgress day2 (val "w");
    IncreaseProgress day2 (val "w");
    IncreaseProgress day3 (val "w");
    Archive day4 (val "w");
    Reopen day5 (val "w") ].

Definition onceScenario : list Command :=
  [ Create "o" day1 day1 (formPayload null "report" "" "once" 1);
    IncreaseProgress day2 (val "o");
    Archive day3 (val "o");
    Reopen day4 (val "o") ].

(** ** The statistics of the composable *)

Section Stats.

(** Rounding to the nearest double, as for the progress bar. *)
Variable fl : Q -> Q.

(** The object [stats] computes; [archivedCount] is its key [archived]. *)
Record Stats : Type := mkStats {
  active : Z;
  completed : Z;
  archivedCount : Z;
  completionRate : Z
}.

(** [stats] *)
Definition stats (tasks : list Task) : Stats :=
  let activeCount := Z.of_nat (List.length (activeTasks tasks)) in
  let completedCount := Z.of_nat (List.length (completedTasks tasks)) in
  let archivedCount := Z.of_nat (List.length (archivedTasks tasks)) in
  let totalVisible := activeCount + completedCount in
  let completionRate :=
    if totalVisible =? 0 then 0
    else TaskCard.Math_round
           (fl (fl (inject_Z completedCount / inject_Z totalVisible)
                * inject_Z 100))%Q in
  mkStats activeCount completedCount archivedCount completionRate.

(** Rounding to the nearest double is monotone and leaves the integers 0, 1
    and 100 alone. *)
Definition roundingOfCounts : Prop :=
  (forall x y, (x <= y)%Q -> (fl x <= fl y)%Q)
  /\ (fl 0 == 0)%Q /\ (fl 1 == 1)%Q /\ (fl (inject_Z 100) == inject_Z 100)%Q.

End Stats.

(** A status the composable itself writes. *)
Definition knownStatus (t : Task) : Prop :=
  status t = "active" \/ status t = "completed" \/ status t = "archived".

(** No repeat rule and no dates. *)
Definition unscheduled (t : Task) : Prop :=
  repeatRule t = null /\ startDate t = null /\ endDate t = null.

(** ** The buttons of the task card *)

Module Card.

(** [isCompleted], [isArchived], [shouldShowRestart] *)
Definition isCompleted (task : Task) : bool :=
  String.eqb (status task) "completed".

Definition isArchived (task : Task) : bool :=
  String.eqb (status task) "archived".

Definition shouldShowRestart (task : Task) : bool :=
  strictEq (type task) (val "cycle") && isCompleted task.

(** [:disabled] of the [+1] button:
    [isArchived || (isCompleted && task.type !== 'cycle')]. *)
Definition increaseDisabled (task : Task) : bool :=
  isArchived task
  || (isCompleted task && negb (strictEq (type task) (val "cycle"))).

(** [latestUpdate]: ["-"] without an update time, else its first ten
    characters. *)
Definition latestUpdate (task : Task) : string :=
  if String.eqb (updatedAt task) "" then "-"
  else String.substring 0 10 (updatedAt task).

End Card.

(** ** The dialog *)

Module Dialog.

(** The reactive [form].  The number input holds a number or, when cleared,
    a nullish value; the date picker holds an array or a nullish value. *)
Record Form : Type := mkForm {
  f_id : js string;
  f_name : string;
  f_description : string;
  f_type : string;
  f_target : js Q;
  f_repeat : string;
  f_dateRange : js (list string)
}.

(** [createDefaultForm] *)
Definition createDefaultForm : Form :=
  mkForm null "" "" "once" (val 1%Q) "daily" (val []).

(** A string is truthy unless it is missing or empty. *)
Definition truthy (v : js string) : bool :=
  match v with
  | val s => negb (String.eqb s "")
  | _ => false
  end.

(** [toFormModel(task)] for a task that is there.  The task is the copy
    [handleEdit] makes through JSON, which reads back as the task. *)
Definition toFormModel (task : Task) : Form :=
  mkForm (orNull (id task))
         (name task ?? "")
         (val (description task) ?? "")
         (type task ?? "once")
         (val (val (target task) ?? 1%Q))
         (repeatRule task ?? "daily")
         (val (if strictEq (type task) (val "long_term")
                  && truthy (startDate task)
               then [startDate task ?? "";
                     endDate task ?? (startDate task ?? "")]
               else [])).

(** The validator of the [target] rule: an error when [value <= 0].  [null]
    counts as zero there, [undefined] compares false. *)
Definition targetAccepted (value : js Q) : bool :=
  match value with
  | val v => negb (numLe v 0)
  | null => false
  | undefined => true
  end.

(** The validator of the [repeat] rule. *)
Definition repeatAccepted (form : Form) : bool :=
  negb (String.eqb (f_type form) "cycle" && String.eqb (f_repeat form) "").

(** The validator of the [dateRange] rule. *)
Definition dateRangeAccepted (form : Form) : bool :=
  if String.eqb (f_type form) "long_term"
  then match f_dateRange form with
       | val range => (List.length range =? 2)%nat
       | _ => false
       end
  else true.

Section Save.

(** The [required] rules of [name], [type] and [target] are checked by the
    form library; [required] is its verdict. *)
Variable required : Form -> bool.

(** [formInstance.validate()] resolves. *)
Definition validate (form : Form) : bool :=
  required form && targetAccepted (f_target form)
  && repeatAccepted form && dateRangeAccepted form.

(** The payload [handleSave] builds, restricted to the keys the composable
    reads in local mode ([repeat] and [dateRange] are not among them). *)
Definition payloadOf (form : Form) : Payload :=
  mkPayload (Some (f_id form)) (Some (val (f_name form)))
            (Some (val (f_description form))) (Some (val (f_type form)))
            None (Some (f_target form)) None None None None None None.

(** [handleSave]: the payload emitted with ["save"], if any. *)
Definition handleSave (form : Form) : option Payload :=
  if validate form then Some (payloadOf form) else None.

End Save.

End Dialog.

(** ** The handlers of the panel *)

Module Panel.

Section Handlers.

Variable localeCompare : string -> string -> Z.
Variable fl : Q -> Q.

(** [filterByType(list)] under the filter [typeFilter]. *)
Definition filterByType (typeFilter : string) (tasks : list Task)
  : list Task :=
  if String.eqb typeFilter "all" then tasks
  else filter (fun task => strictEq (type task) (val typeFilter)) tasks.

(** [findTaskById(id)?.status] *)
Definition statusOf (i : js string) (tasks : list Task) : js string :=
  match findTask i tasks with
  | Some task => val (status task)
  | None => undefined
  end.


(** [handleIncrease(id)]: the store afterwards, and whether the message
    that the target is reached is shown. *)
Definition handleIncrease (now : string) (i : js string) (tasks : list Task)
  : list Task * bool :=
  let previousStatus := statusOf i tasks in
  let tasks' := fst (increaseProgress localeCompare fl now i tasks) in
  let currentStatus := statusOf i tasks' in
  (tasks',
   negb (strictEq previousStatus (val "completed"))
   && strictEq currentStatus (val "completed")).

(** [handleRestart(id)] and [handleReopen(id)] both call [reopenTask]. *)
Definition handleRestart (now : string) (i : js string) (tasks : list Task)
  : list Task :=
  fst (reopenTask localeCompare now i tasks).

End Handlers.

End Panel.

(** Every id a run of commands generates is new when it is generated. *)
Fixpoint freshRun (localeCompare : string -> string -> Z) (fl : Q -> Q)
    (cs : list Command) (tasks : list Task) : Prop :=
  match cs with
  | [] => True
  | c :: cs' => freshId c tasks
                /\ freshRun localeCompare fl cs'
                     (fst (exec localeCompare fl c tasks))
  end.

(** Clock readings and ids for the concrete runs. *)
Definition stampOf (n : nat) : Stamp :=
  match n with
  | O => mkStamp "s0" day1 day1
  | S O => mkStamp "s1" day1 day2
  | _ => mkStamp "s2" day1 day3
  end.


(** The form library's [required] check on the name, for the concrete
    runs. *)
Definition nameRequired (form : Dialog.Form) : bool :=
  negb (String.eqb (Dialog.f_name form) "").

(** A completed task has reached its target. *)
Definition completedAtTarget (t : Task) : Prop :=
  status t = "completed" -> (target t <= progress t)%Q.

(** A command other than an edit. *)
Definition notEdit (c : Command) : Prop :=
  match c with
  | Edit _ _ _ => False
  | _ => True
  end.

(** A whole number. *)
Definition whole (q : Q) : Prop := exists z : Z, (q == inject_Z z)%Q.

(** Whole counters with [0 <= progress <= target], the target at most
    2^53: the numbers a double counts one by one. *)
Definition wholeWithin (t : Task) : Prop :=
  exists p tg : Z,
    (progress t == inject_Z p)%Q /\ (target t == inject_Z tg)%Q
    /\ 0 <= p <= tg /\ tg <= 2 ^ 53.



(** An item handed to [importTasks] whose progress is below zero. *)
Definition overdrawn : Payload :=
  mkPayload None (Some (val "ledger")) None (Some (val "once"))
            (Some (val (-1)%Q)) (Some (val 2%Q)) None None None None None None.

(** An active task one step short of its target, and the dialog saved on
    the completed task of the shelf with the target raised to forty. *)
Definition nearly : Task := sample "g" "once" 7 8 "active" day1.
Definition raiseTarget : Payload :=
  formPayload (val "c") "report" "" "long_term" 40.

(** Three tasks created on three days, the oldest then advanced. *)
Definition threeDays : list Command :=
  [ Create "a" day1 day1 (formPayload null "weekly report" "" "cycle" 2);
    Create "b" day2 day2 (formPayload null "release" "" "once" 1);
    Create "c" day3 day3 (formPayload null "reading" "" "long_term" 30);
    IncreaseProgress day4 (val "a") ].

(** * Facts *)

(** ** Strict equality and array helpers *)

Lemma strictEq_true (a b : js string) : strictEq a b = true <-> a = b.
Proof.
  destruct a as [| |x], b as [| |y]; simpl; split; intro H;
    try reflexivity; try discriminate.
  - apply String.eqb_eq in H. now subst.
  - injection H as ->. apply String.eqb_refl.
Qed.

Lemma strictEq_refl (a : js string) : strictEq a a = true.
Proof. now apply strictEq_true. Qed.

Lemma numLt_true (a b : Q) : numLt a b = true <-> (a < b)%Q.
Proof.
  unfold numLt. rewrite negb_true_iff. split; intro H.
  - apply Qnot_le_lt. intro Hle. apply Qle_bool_iff in Hle. congruence.
  - destruct (Qle_bool b a) eqn:E; [|reflexivity].
    apply Qle_bool_iff in E. lra.
Qed.

Lemma numLt_false (a b : Q) : numLt a b = false <-> (b <= a)%Q.
Proof.
  unfold numLt. rewrite negb_false_iff. apply Qle_bool_iff.
Qed.

Lemma numLe_true (a b : Q) : numLe a b = true <-> (a <= b)%Q.
Proof. apply Qle_bool_iff. Qed.

Lemma numLe_false (a b : Q) : numLe a b = false <-> (b < a)%Q.
Proof.
  unfold numLe. split; intro H.
  - apply Qnot_le_lt. intro Hle. apply Qle_bool_iff in Hle. congruence.
  - destruct (Qle_bool a b) eqn:E; [|reflexivity].
    apply Qle_bool_iff in E. lra.
Qed.

Lemma hasId_id (i : js string) (t : Task) : hasId i t = true -> id t = i.
Proof. unfold hasId. apply strictEq_true. Qed.

Lemma findIndex_find {A : Type} (p : A -> bool) (l : list A) (n : nat) :
  findIndex p l = Some n ->
  exists x, find p l = Some x /\ nth_error l n = Some x.
Proof.
  revert n. induction l as [|y l IH]; simpl; intros n H; [discriminate|].
  destruct (p y) eqn:Hp.
  - injection H as <-. now exists y.
  - destruct (findIndex p l) as [m|]; [|discriminate].
    injection H as <-. destruct (IH m eq_refl) as [x [Hf Hn]].
    now exists x.
Qed.

Lemma findIndex_none {A : Type} (p : A -> bool) (l : list A) :
  findIndex p l = None <-> find p l = None.
Proof.
  induction l as [|y l IH]; simpl; [tauto|].
  destruct (p y); [split; discriminate|].
  destruct (findIndex p l); split; intro H; try discriminate;
    try (apply IH in H; discriminate); tauto.
Qed.

Lemma findIndex_lt {A : Type} (p : A -> bool) (l : list A) (n : nat) :
  findIndex p l = Some n -> (n < List.length l)%nat.
Proof.
  intro H. destruct (findIndex_find p l n H) as [x [_ Hn]].
  apply nth_error_Some. congruence.
Qed.

(** Replacing the element [findIndex] points to is assigning to the object
    [find] returns. *)
Lemma splice1_mutateFound {A : Type} (p : A -> bool) (l : list A) (n : nat)
    (x : A) :
  findIndex p l = Some n -> splice1 n x l = mutateFound p (fun _ => x) l.
Proof.
  revert n. induction l as [|y l IH]; simpl; intros n H; [discriminate|].
  destruct (p y).
  - injection H as <-. reflexivity.
  - destruct (findIndex p l) as [m|]; [|discriminate].
    injection H as <-. unfold splice1 in *. simpl. f_equal. now apply IH.
Qed.

Lemma mutateFound_split {A : Type} (p : A -> bool) (f : A -> A)
    (l : list A) (x : A) :
  find p l = Some x ->
  exists l1 l2, l = l1 ++ x :: l2
                /\ mutateFound p f l = l1 ++ f x :: l2
                /\ forallb (fun y => negb (p y)) l1 = true.
Proof.
  induction l as [|y l IH]; simpl; intro H; [discriminate|].
  destruct (p y) eqn:Hp.
  - injection H as ->. now exists [], l.
  - destruct (IH H) as [l1 [l2 [E1 [E2 E3]]]].
    exists (y :: l1), l2. simpl. rewrite Hp, E3. subst l.
    repeat split; try reflexivity. now rewrite E2.
Qed.

Lemma mutateFound_none {A : Type} (p : A -> bool) (f : A -> A) (l : list A) :
  find p l = None -> mutateFound p f l = l.
Proof.
  induction l as [|y l IH]; simpl; [reflexivity|].
  destruct (p y); [discriminate|]. intro H. now rewrite IH.
Qed.

Lemma mutateFound_length {A : Type} (p : A -> bool) (f : A -> A)
    (l : list A) :
  List.length (mutateFound p f l) = List.length l.
Proof.
  induction l as [|y l IH]; simpl; [reflexivity|].
  destruct (p y); simpl; congruence.
Qed.

Lemma mutateFound_In {A : Type} (p : A -> bool) (f : A -> A) (l : list A)
    (x : A) :
  find p l = Some x -> In (f x) (mutateFound p f l).
Proof.
  intro H. destruct (mutateFound_split p f l x H) as [l1 [l2 [_ [E _]]]].
  rewrite E. apply in_elt.
Qed.

Lemma mutateFound_Forall {A : Type} (P : A -> Prop) (p : A -> bool)
    (f : A -> A) (l : list A) :
  Forall P l -> (forall x, find p l = Some x -> P (f x)) ->
  Forall P (mutateFound p f l).
Proof.
  induction l as [|y l IH]; simpl; intros Hl Hf; [constructor|].
  inversion Hl as [|? ? Hy Hl']; subst.
  destruct (p y); constructor; auto.
Qed.

(** Assigning to fields other than [id] leaves the ids of the array as they
    were, and the found task stays the first with its id. *)
Lemma mutateFound_ids (i : js string) (f : Task -> Task) (l : list Task) :
  (forall t, id (f t) = id t) ->
  map id (mutateFound (hasId i) f l) = map id l.
Proof.
  intro Hf. induction l as [|y l IH]; simpl; [reflexivity|].
  destruct (hasId i y); simpl; [now rewrite Hf | now rewrite IH].
Qed.

Lemma mutateFound_find (i : js string) (f : Task -> Task) (l : list Task)
    (t : Task) :
  (forall u, id (f u) = id u) ->
  find (hasId i) l = Some t ->
  find (hasId i) (mutateFound (hasId i) f l) = Some (f t).
Proof.
  intro Hf. induction l as [|y l IH]; simpl; intro H; [discriminate|].
  destruct (hasId i y) eqn:Hy.
  - injection H as ->. simpl. unfold hasId in *. now rewrite Hf, Hy.
  - simpl. rewrite Hy. now apply IH.
Qed.

(** ** Sorting *)

Section SortFacts.

Variable localeCompare : string -> string -> Z.

Abbreviation cmp := (compareTasks localeCompare).
Abbreviation insertTask := (insertTask localeCompare).
Abbreviation sortTasks := (sortTasks localeCompare).
Abbreviation descending := (descending localeCompare).
Abbreviation tied := (tied localeCompare).

Lemma insertTask_perm (x : Task) (l : list Task) :
  Permutation (insertTask x l) (x :: l).
Proof.
  induction l as [|y l IH]; simpl; [apply Permutation_refl|].
  destruct (cmp x y <=? 0); [apply Permutation_refl|].
  eapply perm_trans; [apply perm_skip, IH | apply perm_swap].
Qed.

Lemma sortTasks_perm (l : list Task) : Permutation (sortTasks l) l.
Proof.
  induction l as [|x l IH]; simpl; [constructor|].
  eapply perm_trans; [apply insertTask_perm | now apply perm_skip].
Qed.

Lemma sortTasks_length (l : list Task) :
  List.length (sortTasks l) = List.length l.
Proof. apply Permutation_length, sortTasks_perm. Qed.

Lemma sortTasks_In (l : list Task) (t : Task) :
  In t (sortTasks l) <-> In t l.
Proof.
  split; apply Permutation_in;
    [apply sortTasks_perm | apply Permutation_sym, sortTasks_perm].
Qed.

Lemma sortTasks_Forall (P : Task -> Prop) (l : list Task) :
  Forall P l -> Forall P (sortTasks l).
Proof.
  intro H. eapply Permutation_Forall; [|exact H].
  apply Permutation_sym, sortTasks_perm.
Qed.

Lemma descending_filter (f : Task -> bool) (l : list Task) :
  descending l -> descending (filter f l).
Proof.
  unfold descending. induction 1 as [|x l Hs IH Hx]; simpl; [constructor|].
  destruct (f x); [|exact IH]. constructor; [exact IH|].
  rewrite Forall_forall in *. intros y Hy.
  apply filter_In in Hy. now apply Hx.
Qed.

Hypothesis lc_consistent : consistent localeCompare.

Lemma cmp_flip (a b : Task) : Z.sgn (cmp a b) = - Z.sgn (cmp b a).
Proof. unfold compareTasks. apply (proj1 lc_consistent). Qed.

Lemma cmp_trans (a b c : Task) : cmp a b <= 0 -> cmp b c <= 0 -> cmp a c <= 0.
Proof.
  unfold compareTasks. intros Hab Hbc.
  exact (proj2 lc_consistent _ _ _ Hbc Hab).
Qed.

Lemma cmp_after (a b : Task) : 0 < cmp a b -> cmp b a <= 0.
Proof.
  intro H. pose proof (cmp_flip a b) as F.
  rewrite (Z.sgn_pos _ H) in F.
  destruct (Z.sgn_spec (cmp b a)) as [[? E]|[[? E]|[? E]]]; lia.
Qed.

Lemma cmp_tie_sym (a b : Task) : cmp a b = 0 -> cmp b a = 0.
Proof.
  intro H. pose proof (cmp_flip a b) as F. rewrite H in F. simpl in F.
  destruct (Z.sgn_spec (cmp b a)) as [[? E]|[[? E]|[? E]]]; lia.
Qed.

Lemma insertTask_descending (x : Task) (l : list Task) :
  descending l -> descending (insertTask x l).
Proof.
  unfold descending.
  induction 1 as [|y l Hs IH Hy]; simpl; [repeat constructor|].
  destruct (cmp x y <=? 0) eqn:E.
  - apply Z.leb_le in E. constructor; [now constructor|].
    constructor; [exact E|].
    eapply Forall_impl; [|exact Hy]. intros z Hz. now apply cmp_trans with y.
  - apply Z.leb_gt in E. constructor; [exact IH|].
    eapply Permutation_Forall;
      [apply Permutation_sym, insertTask_perm|].
    constructor; [now apply cmp_after | exact Hy].
Qed.

Lemma sortTasks_descending (l : list Task) : descending (sortTasks l).
Proof.
  induction l as [|x l IH]; simpl; [constructor|].
  now apply insertTask_descending.
Qed.

Lemma tied_both (t x y : Task) :
  tied t x = true -> tied t y = true -> cmp x y = 0.
Proof.
  unfold tied. intros Hx Hy. apply Z.eqb_eq in Hx, Hy.
  change (cmp t x = 0) in Hx. change (cmp t y = 0) in Hy.
  pose proof (cmp_tie_sym _ _ Hx) as Hx'.
  pose proof (cmp_tie_sym _ _ Hy) as Hy'.
  assert (cmp x y <= 0) by (apply cmp_trans with t; lia).
  assert (cmp y x <= 0) by (apply cmp_trans with t; lia).
  pose proof (cmp_flip x y) as F.
  destruct (Z.sgn_spec (cmp x y)) as [[? E]|[[? E]|[? E]]];
    destruct (Z.sgn_spec (cmp y x)) as [[? E']|[[? E']|[? E']]]; lia.
Qed.

Lemma insertTask_stable (t x : Task) (l : list Task) :
  filter (tied t) (insertTask x l) = filter (tied t) (x :: l).
Proof.
  induction l as [|y l IH]; [reflexivity|].
  cbn [insertTask]. destruct (cmp x y <=? 0) eqn:E; [reflexivity|].
  apply Z.leb_gt in E. cbn [filter] in *. rewrite IH.
  destruct (tied t x) eqn:Hx, (tied t y) eqn:Hy; try reflexivity.
  pose proof (tied_both t x y Hx Hy). lia.
Qed.

Lemma sortTasks_stable (t : Task) (l : list Task) :
  filter (tied t) (sortTasks l) = filter (tied t) l.
Proof.
  induction l as [|x l IH]; [reflexivity|].
  cbn [sortTasks fold_right]. rewrite insertTask_stable.
  cbn [filter]. fold (sortTasks l). now rewrite IH.
Qed.

End SortFacts.

(** ** Looking a task up by id *)

Lemma findTask_unique (i : js string) (l : list Task) (t : Task) :
  NoDup (map id l) -> In t l -> hasId i t = true -> findTask i l = Some t.
Proof.
  unfold findTask. induction l as [|y l IH]; simpl; intros Hn Hin Ht;
    [contradiction|].
  inversion Hn as [|? ? Hy Hn']; subst.
  destruct (hasId i y) eqn:Hiy.
  - destruct Hin as [->|Hin]; [reflexivity|].
    exfalso. apply Hy. apply hasId_id in Hiy, Ht. rewrite Hiy, <- Ht.
    now apply in_map.
  - destruct Hin as [->|Hin]; [congruence|]. now apply IH.
Qed.

Lemma findTask_perm (i : js string) (l l' : list Task) :
  NoDup (map id l) -> Permutation l l' -> findTask i l' = findTask i l.
Proof.
  intros Hn Hp. destruct (findTask i l) as [t|] eqn:E.
  - apply find_some in E. destruct E as [Hin Ht].
    apply findTask_unique; [| |exact Ht].
    + eapply Permutation_NoDup; [|exact Hn]. now apply Permutation_map.
    + eapply Permutation_in; eassumption.
  - unfold findTask in *. destruct (find (hasId i) l') as [u|] eqn:E';
      [|reflexivity].
    apply find_some in E'. destruct E' as [Hin Hu].
    pose proof (find_none _ _ E u) as Hnone.
    rewrite Hnone in Hu; [discriminate|].
    eapply Permutation_in; [apply Permutation_sym|]; eassumption.
Qed.

Section StoreFacts.

Variable localeCompare : string -> string -> Z.

Abbreviation sortTasks := (sortTasks localeCompare).

(** After an in-place assignment that keeps the id and the re-sort, the
    assigned task is in the store, and is the one its id finds when ids are
    not shared. *)
Lemma mutated_stored (i : js string) (f : Task -> Task) (l : list Task)
    (t : Task) :
  findTask i l = Some t ->
  In (f t) (sortTasks (mutateFound (hasId i) f l)).
Proof.
  intro H. apply sortTasks_In. now apply mutateFound_In.
Qed.

Lemma mutated_found (i : js string) (f : Task -> Task) (l : list Task)
    (t : Task) :
  (forall u, id (f u) = id u) ->
  findTask i l = Some t ->
  NoDup (map id l) ->
  findTask i (sortTasks (mutateFound (hasId i) f l)) = Some (f t).
Proof.
  intros Hf Ht Hn.
  rewrite (findTask_perm i (mutateFound (hasId i) f l)).
  - now apply mutateFound_find.
  - now rewrite mutateFound_ids.
  - apply Permutation_sym, sortTasks_perm.
Qed.

Lemma mutated_ids (i : js string) (f : Task -> Task) (l : list Task) :
  (forall u, id (f u) = id u) ->
  Permutation (map id (sortTasks (mutateFound (hasId i) f l))) (map id l).
Proof.
  intro Hf. rewrite <- (mutateFound_ids i f l Hf).
  apply Permutation_map, sortTasks_perm.
Qed.

(** [updateTask] on a payload whose id is in the store: the found task is
    replaced by its edited version and the array is sorted again. *)
Lemma updateTask_found (now now1 : string) (payload : Payload)
    (l : list Task) (t : Task) :
  findTask (get (p_id payload)) l = Some t ->
  fst (updateTask localeCompare now now1 payload l)
  = sortTasks (mutateFound (hasId (get (p_id payload)))
                 (fun _ => edited now now1 payload (toObject t)) l)
  /\ exists u, snd (updateTask localeCompare now now1 payload l) = val u.
Proof.
  intro Hf. unfold updateTask.
  destruct (findIndex (hasId (get (p_id payload))) l) as [n|] eqn:E.
  - destruct (findIndex_find _ _ _ E) as [x [Hx Hn]].
    unfold findTask in Hf. rewrite Hx in Hf. injection Hf as ->.
    rewrite Hn. cbn [fst snd]. split.
    + now rewrite (splice1_mutateFound _ _ _ _ E).
    + unfold at_index.
      destruct (nth_error (sortTasks _) n) as [u|] eqn:En; [now exists u|].
      apply nth_error_None in En.
      rewrite sortTasks_length in En.
      rewrite (splice1_mutateFound _ _ _ _ E), mutateFound_length in En.
      apply findIndex_lt in E. lia.
  - apply findIndex_none in E. unfold findTask in Hf. congruence.
Qed.

Lemma updateTask_absent (now now1 : string) (payload : Payload)
    (l : list Task) :
  findTask (get (p_id payload)) l = None ->
  updateTask localeCompare now now1 payload l = (l, null).
Proof.
  intro Hf. unfold updateTask.
  apply findIndex_none in Hf. now rewrite Hf.
Qed.

(** The edited task keeps the id it was found by. *)
Lemma edited_id (now now1 : string) (payload : Payload) (t : Task) :
  hasId (get (p_id payload)) t = true ->
  id (edited now now1 payload (toObject t)) = id t.
Proof.
  intro H. apply hasId_id in H. unfold edited. simpl.
  destruct (p_id payload) as [v|]; simpl in *; congruence.
Qed.

Lemma edited_found (now now1 : string) (payload : Payload) (l : list Task)
    (t : Task) :
  findTask (get (p_id payload)) l = Some t ->
  NoDup (map id l) ->
  findTask (get (p_id payload))
    (fst (updateTask localeCompare now now1 payload l))
  = Some (edited now now1 payload (toObject t)).
Proof.
  intros Hf Hn. destruct (updateTask_found now now1 payload l t Hf) as [-> _].
  assert (Hin : hasId (get (p_id payload)) t = true)
    by (apply find_some in Hf; tauto).
  pose proof (edited_id now now1 payload t Hin) as Hid.
  set (e := edited now now1 payload (toObject t)) in *.
  set (i := get (p_id payload)) in *.
  clearbody e i.
  assert (E : map id (mutateFound (hasId i) (fun _ => e) l) = map id l).
  { unfold findTask in Hf. clear Hn.
    induction l as [|y l IH]; simpl in *; [reflexivity|].
    destruct (hasId i y) eqn:Hy; simpl.
    - injection Hf as ->. now rewrite Hid.
    - now rewrite IH. }
  rewrite (findTask_perm _ (mutateFound (hasId i) (fun _ => e) l)).
  - unfold findTask in *. clear Hn E.
    induction l as [|y l IH]; simpl in *; [discriminate|].
    destruct (hasId i y) eqn:Hy.
    + injection Hf as ->. simpl. unfold hasId in *. now rewrite Hid, Hin.
    + simpl. rewrite Hy. now apply IH.
  - now rewrite E.
  - apply Permutation_sym, sortTasks_perm.
Qed.

End StoreFacts.

(** ** The code unit collation is a consistent comparator *)

Lemma compare_not_after_trans (a b c : string) :
  String.compare a b <> Gt -> String.compare b c <> Gt ->
  String.compare a c <> Gt.
Proof.
  revert b c.
  induction a as [|x xs IH]; intros [|y ys] [|z zs]; simpl; try congruence.
  unfold Ascii.compare.
  destruct (N.compare_spec (Ascii.N_of_ascii x) (Ascii.N_of_ascii y)) as [Exy|Lxy|Gxy];
    destruct (N.compare_spec (Ascii.N_of_ascii y) (Ascii.N_of_ascii z)) as [Eyz|Lyz|Gyz];
    destruct (N.compare_spec (Ascii.N_of_ascii x) (Ascii.N_of_ascii z)) as [Exz|Lxz|Gxz];
    try congruence; try lia.
  apply IH.
Qed.

Lemma codeUnitCompare_consistent : consistent codeUnitCompare.
Proof.
  split.
  - intros a b. unfold codeUnitCompare.
    rewrite (String.compare_antisym b a).
    now destruct (String.compare a b).
  - intros a b c Hab Hbc. unfold codeUnitCompare in *.
    pose proof (compare_not_after_trans a b c) as T.
    destruct (String.compare a b), (String.compare b c),
      (String.compare a c); try lia; exfalso; apply T; congruence.
Qed.

(** ** Order of the list *)

Section OrderKept.

Variable localeCompare : string -> string -> Z.
Variable fl : Q -> Q.
Hypothesis lc_consistent : consistent localeCompare.

Abbreviation descending := (descending localeCompare).

(** Every command leaves a sorted array sorted: the commands that assign
    to a task sort again, the others remove tasks or change nothing. *)
Lemma exec_descending (c : Command) (tasks : list Task) :
  descending tasks -> descending (fst (exec localeCompare fl c tasks)).
Proof.
  intro Hd.
  destruct c as [newId now1 now2 payload|now now1 payload|i|now i|now i|now i];
    cbn [exec].
  - unfold addTask. cbn [fst]. now apply sortTasks_descending.
  - unfold updateTask.
    destruct (findIndex _ tasks); [now apply sortTasks_descending|exact Hd].
  - unfold deleteTask. cbn [fst]. now apply descending_filter.
  - unfold increaseProgress. destruct (findTask i tasks) as [t|]; [|exact Hd].
    destruct (numLt (progress t) (target t));
      [now apply sortTasks_descending|exact Hd].
  - unfold archiveTask. destruct (findTask i tasks);
      [now apply sortTasks_descending|exact Hd].
  - unfold reopenTask. destruct (findTask i tasks);
      [now apply sortTasks_descending|exact Hd].
Qed.

Lemma run_descending (cs : list Command) (tasks : list Task) :
  descending tasks -> descending (run localeCompare fl cs tasks).
Proof.
  revert tasks. induction cs as [|c cs IH]; intros tasks Hd; [exact Hd|].
  apply IH. now apply exec_descending.
Qed.

Lemma refreshTasks_descending (stamp : nat -> Stamp) (loaded : bool)
    (tasks : list Task) :
  descending tasks ->
  descending (fst (refreshTasks localeCompare stamp loaded tasks)).
Proof.
  intro Hd. unfold refreshTasks.
  destruct (negb loaded && (List.length tasks =? 0)%nat);
    [now apply sortTasks_descending|exact Hd].
Qed.

Lemma importTasks_descending (items : list (Stamp * Payload))
    (tasks : list Task) :
  descending tasks -> descending (importTasks localeCompare items tasks).
Proof.
  intro Hd. unfold importTasks.
  destruct items; [exact Hd|now apply sortTasks_descending].
Qed.

End OrderKept.

(** In a sorted list, of two tasks the one listed later has an update
    time that does not sort after that of the one listed earlier. *)
Lemma descending_nth (localeCompare : string -> string -> Z)
    (tasks : list Task) :
  descending localeCompare tasks ->
  forall (i j : nat) (a b : Task),
    (i < j)%nat -> nth_error tasks i = Some a -> nth_error tasks j = Some b ->
    localeCompare (updatedAt b) (updatedAt a) <= 0.
Proof.
  intro Hd. induction Hd as [|x l Hl IH Hx]; intros i j a b Hij Ha Hb.
  - destruct i; discriminate.
  - destruct j as [|j]; [lia|]. cbn in Hb. destruct i as [|i].
    + cbn in Ha. injection Ha as <-.
      rewrite Forall_forall in Hx. apply Hx. now apply nth_error_In with j.
    + cbn in Ha. apply (IH i j); [lia|exact Ha|exact Hb].
Qed.

(** C9.  With a consistent [localeCompare], the array of tasks is ordered by
    [updatedAt] descending after every command: a run of commands from the
    empty store, or from any sorted store, ends in a sorted store, and so
    do the seeding and the import; the three computed lists are sorted
    with it; and [sortTasks] is a stable
    sort: it rearranges the array without adding or dropping a task, and
    tasks whose update times tie keep the order they had.  Sorted means: of
    two tasks of the list, the update time of the one listed later does
    not sort after that of the one listed earlier. *)
Theorem tasks_listed_most_recent_first
    (localeCompare : string -> string -> Z) (fl : Q -> Q) :
  consistent localeCompare ->
  (forall cs, descending localeCompare (run localeCompare fl cs []))
  /\ (forall cs tasks, descending localeCompare tasks ->
        descending localeCompare (run localeCompare fl cs tasks))
  /\ (forall stamp loaded items tasks, descending localeCompare tasks ->
        descending localeCompare
          (fst (refreshTasks localeCompare stamp loaded tasks))
        /\ descending localeCompare
             (importTasks localeCompare items tasks))
  /\ (forall tasks, descending localeCompare tasks ->
        descending localeCompare (activeTasks tasks)
        /\ descending localeCompare (completedTasks tasks)
        /\ descending localeCompare (archivedTasks tasks))
  /\ (forall tasks,
        descending localeCompare (sortTasks localeCompare tasks)
        /\ Permutation (sortTasks localeCompare tasks) tasks
        /\ forall t, filter (tied localeCompare t)
                       (sortTasks localeCompare tasks)
                     = filter (tied localeCompare t) tasks)
  /\ (forall cs (i j : nat) a b,
        (i < j)%nat ->
        nth_error (run localeCompare fl cs []) i = Some a ->
        nth_error (run localeCompare fl cs []) j = Some b ->
        localeCompare (updatedAt b) (updatedAt a) <= 0).
Proof.
  intro Hc.
  assert (Hrun : forall cs,
            descending localeCompare (run localeCompare fl cs []))
    by (intro cs; apply run_descending; [exact Hc|constructor]).
  split; [exact Hrun|].
  split; [intros cs tasks; now apply run_descending|].
  split; [intros stamp loaded items tasks Hd; split;
          [now apply refreshTasks_descending
          |now apply importTasks_descending]|].
  split; [intros tasks Hd; repeat split; now apply descending_filter|].
  split.
  - intro tasks. split; [now apply sortTasks_descending|].
    split; [apply sortTasks_perm|]. intro t. now apply sortTasks_stable.
  - intros cs. apply descending_nth, Hrun.
Qed.

(** Three tasks created on three days and the oldest advanced on the
    fourth: the advanced task is listed first, then the other two, the
    later created one before the earlier. *)
Lemma tasks_listed_witness :
  consistent codeUnitCompare
  /\ descending codeUnitCompare (run codeUnitCompare noRounding threeDays [])
  /\ map (fun t => (id t, updatedAt t))
       (run codeUnitCompare noRounding threeDays [])
     = [(val "a", day4); (val "c", day3); (val "b", day2)].
Proof.
  split; [exact codeUnitCompare_consistent|]. split.
  - exact (proj1 (tasks_listed_most_recent_first codeUnitCompare noRounding
                    codeUnitCompare_consistent) threeDays).
  - vm_compute. reflexivity.
Defined.

(** ** Reopen, archive, increase *)

Lemma reopened_id (now : string) (t : Task) : id (reopened now t) = id t.
Proof.
  unfold reopened. cbn. now destruct (strictEq (type t) (val "cycle")).
Qed.

Lemma archived_id (now : string) (t : Task) : id (archived now t) = id t.
Proof. reflexivity. Qed.

Lemma increased_id (fl : Q -> Q) (now : string) (t : Task) :
  id (increased fl now t) = id t.
Proof.
  unfold increased. cbn.
  now destruct (numLe (target t) (fl (progress t + 1)%Q)
                && negb (String.eqb (status t) "archived")).
Qed.

(** C1.  Reopen of a task of the store returns the task with [status]
    set to ["active"], and that record is the one stored under the id; its
    progress is reset to 0 when the kind is ["cycle"] and is the old progress
    for any other kind, ["once"] and ["long_term"] among them; so the
    progress after the call is 0 exactly when the kind is ["cycle"] or the
    progress was 0 already. *)
Theorem reopen_resets_cycle_only
    (localeCompare : string -> string -> Z) (now : string) (i : js string)
    (tasks : list Task) (task : Task) :
  findTask i tasks = Some task ->
  snd (reopenTask localeCompare now i tasks) = val (reopened now task)
  /\ In (reopened now task) (fst (reopenTask localeCompare now i tasks))
  /\ (NoDup (map id tasks) ->
      findTask i (fst (reopenTask localeCompare now i tasks))
      = Some (reopened now task))
  /\ status (reopened now task) = "active"
  /\ (type task = val "cycle" -> progress (reopened now task) = 0%Q)
  /\ (type task <> val "cycle" ->
      progress (reopened now task) = progress task)
  /\ (type task = val "once" \/ type task = val "long_term" ->
      progress (reopened now task) = progress task)
  /\ ((progress (reopened now task) == 0)%Q
      <-> type task = val "cycle" \/ (progress task == 0)%Q).
Proof.
  intro Hf. unfold reopenTask. rewrite Hf. cbn [fst snd].
  assert (Hnot : type task <> val "cycle" ->
                 progress (reopened now task) = progress task).
  { intro Hk. unfold reopened. cbn.
    destruct (strictEq (type task) (val "cycle")) eqn:E; [|reflexivity].
    apply strictEq_true in E. contradiction. }
  repeat split.
  - now apply mutated_stored.
  - intro Hn. apply mutated_found; auto using reopened_id.
  - unfold reopened. cbn.
    now destruct (strictEq (type task) (val "cycle")).
  - intro Hk. unfold reopened. cbn. rewrite Hk. reflexivity.
  - exact Hnot.
  - intros [Hk|Hk]; apply Hnot; rewrite Hk; discriminate.
  - unfold reopened. cbn.
    destruct (strictEq (type task) (val "cycle")) eqn:E; cbn.
    + apply strictEq_true in E. tauto.
    + intro H. now right.
  - intros [Hk|Hz].
    + unfold reopened. cbn. rewrite Hk. reflexivity.
    + unfold reopened. cbn.
      destruct (strictEq (type task) (val "cycle")); cbn;
        [reflexivity|exact Hz].
Qed.

Lemma reopen_witness :
  findTask (val "a") shelf = Some weekly
  /\ progress (reopened day4 weekly) = 0%Q
  /\ findTask (val "a") (fst (reopenTask codeUnitCompare day4 (val "a") shelf))
     = Some (reopened day4 weekly).
Proof.
  split; [reflexivity|].
  destruct (reopen_resets_cycle_only codeUnitCompare day4 (val "a") shelf
              weekly eq_refl) as (_ & _ & Hfound & _ & Hcycle & _).
  split; [now apply Hcycle|].
  apply Hfound. repeat constructor; simpl; intuition discriminate.
Defined.

(** C8.  Archive of a task of the store returns the task with [status] set
    to ["archived"] and [updatedAt] to the time of the call, every other
    field (id, name, description, kind, progress, target, repeat rule,
    dates, creation time) being what it was; that record is the one stored
    under the id, and the store is the old one with this task replaced,
    sorted again. *)
Theorem archive_changes_status_only
    (localeCompare : string -> string -> Z) (now : string) (i : js string)
    (tasks : list Task) (task : Task) :
  findTask i tasks = Some task ->
  archived now task
  = mkTask (id task) (name task) (description task) (type task)
           (progress task) (target task) (repeatRule task) (startDate task)
           (endDate task) "archived" (createdAt task) now
  /\ snd (archiveTask localeCompare now i tasks) = val (archived now task)
  /\ (NoDup (map id tasks) ->
      findTask i (fst (archiveTask localeCompare now i tasks))
      = Some (archived now task))
  /\ exists before after,
       tasks = before ++ task :: after
       /\ Permutation (fst (archiveTask localeCompare now i tasks))
                      (before ++ archived now task :: after).
Proof.
  intro Hf. unfold archiveTask. rewrite Hf. cbn [fst snd].
  repeat split.
  - intro Hn. apply mutated_found; auto using archived_id.
  - destruct (mutateFound_split (hasId i) (archived now) tasks task Hf)
      as (l1 & l2 & E1 & E2 & _).
    exists l1, l2. split; [exact E1|].
    rewrite <- E2. apply sortTasks_perm.
Qed.

Lemma archive_witness :
  findTask (val "c") shelf = Some english
  /\ snd (archiveTask codeUnitCompare day4 (val "c") shelf)
     = val (sample "c" "long_term" 30 30 "archived" day4).
Proof.
  split; [reflexivity|].
  destruct (archive_changes_status_only codeUnitCompare day4 (val "c") shelf
              english eq_refl) as (E & Hret & _).
  rewrite Hret, E. reflexivity.
Defined.

Lemma increaseProgress_at_target
    (localeCompare : string -> string -> Z) (fl : Q -> Q) (now : string)
    (i : js string)
    (tasks : list Task) (task : Task) :
  findTask i tasks = Some task -> (target task <= progress task)%Q ->
  increaseProgress localeCompare fl now i tasks = (tasks, val task).
Proof.
  intros Hf Hp. unfold increaseProgress. rewrite Hf.
  destruct (numLt (progress task) (target task)) eqn:E; [|reflexivity].
  apply numLt_true in E. lra.
Qed.

Lemma increased_progress (fl : Q -> Q) (now : string) (t : Task) :
  progress (increased fl now t) = fl (progress t + 1)%Q
  /\ target (increased fl now t) = target t.
Proof.
  unfold increased. cbn.
  now destruct (numLe (target t) (fl (progress t + 1)%Q)
                && negb (String.eqb (status t) "archived")).
Qed.

(** Rounding that keeps the order gives equal doubles for equal numbers. *)
Lemma monotone_proper (fl : Q -> Q) (a b : Q) :
  monotone fl -> (a == b)%Q -> (fl a == fl b)%Q.
Proof.
  intros Hm E. apply Qle_antisym; apply Hm; rewrite E; apply Qle_refl.
Qed.

(** One added to a whole number in the exact range is not rounded. *)
Lemma exact_plus_one (fl : Q -> Q) (a : Q) (z : Z) :
  monotone fl -> exactOnCounts fl ->
  (a == inject_Z z)%Q -> - 2 ^ 53 <= z + 1 <= 2 ^ 53 ->
  (fl (a + 1) == inject_Z (z + 1))%Q.
Proof.
  intros Hm He Ha Hz. rewrite <- (He (z + 1) Hz).
  apply monotone_proper; [exact Hm|].
  rewrite Ha, inject_Z_plus. reflexivity.
Qed.

Lemma noRounding_monotone : monotone noRounding.
Proof. intros x y H. exact H. Qed.

Lemma noRounding_exact : exactOnCounts noRounding.
Proof. intros z _. reflexivity. Qed.

Lemma whole_lt (a b : Q) (x y : Z) :
  (a == inject_Z x)%Q -> (b == inject_Z y)%Q -> ((a < b)%Q <-> x < y).
Proof. intros -> ->. rewrite <- Zlt_Qlt. reflexivity. Qed.

Lemma whole_le (a b : Q) (x y : Z) :
  (a == inject_Z x)%Q -> (b == inject_Z y)%Q -> ((a <= b)%Q <-> x <= y).
Proof. intros -> ->. rewrite <- Zle_Qle. reflexivity. Qed.

Lemma whole_plus_one (a : Q) (x : Z) :
  (a == inject_Z x)%Q -> (a + 1 == inject_Z (x + 1))%Q.
Proof. intros ->. rewrite inject_Z_plus. reflexivity. Qed.

Lemma whole_succ (q : Q) : whole q -> whole (q + 1)%Q.
Proof.
  intros [z Hz]. exists (z + 1). rewrite inject_Z_plus, Hz. reflexivity.
Qed.





(** ** Commands on an id the store does not hold *)

(** C7, as the code has it.  For an id the store does not hold, edit,
    increase-progress, archive and reopen return [null] and leave the store
    as it is.  Delete leaves the store as it is too, but signals nothing: it
    returns [undefined] whether or not the id was there, so deleting the
    same id again is a silent no-op. *)
Theorem absent_id_changes_nothing
    (localeCompare : string -> string -> Z) (fl : Q -> Q) (i : js string)
    (tasks : list Task) :
  findTask i tasks = None ->
  (forall now now1 payload, get (p_id payload) = i ->
     updateTask localeCompare now now1 payload tasks = (tasks, null))
  /\ (forall now, increaseProgress localeCompare fl now i tasks = (tasks, null))
  /\ (forall now, archiveTask localeCompare now i tasks = (tasks, null))
  /\ (forall now, reopenTask localeCompare now i tasks = (tasks, null))
  /\ deleteTask i tasks = (tasks, undefined)
  /\ (forall j tasks', snd (deleteTask j tasks') = undefined)
  /\ (forall j tasks',
        deleteTask j (fst (deleteTask j tasks'))
        = (fst (deleteTask j tasks'), undefined)).
Proof.
  intro Hf.
  assert (Hdel : forall j l, findTask j l = None ->
                             deleteTask j l = (l, undefined)).
  { intros j l H. unfold deleteTask. f_equal.
    unfold findTask in H. induction l as [|y l IH]; [reflexivity|].
    simpl in *. unfold hasId in H.
    destruct (strictEq (id y) j); [discriminate|]. simpl.
    now rewrite IH. }
  repeat split.
  - intros now now1 payload <-. now apply updateTask_absent.
  - intro now. unfold increaseProgress. now rewrite Hf.
  - intro now. unfold archiveTask. now rewrite Hf.
  - intro now. unfold reopenTask. now rewrite Hf.
  - now apply Hdel.
  - intros j tasks'. apply Hdel. unfold deleteTask, findTask. cbn [fst].
    destruct (find (hasId j) _) as [x|] eqn:E; [|reflexivity].
    apply find_some in E. destruct E as [Hx Hj].
    apply filter_In in Hx. destruct Hx as [_ Hx].
    unfold hasId in Hj. rewrite Hj in Hx. discriminate.
Qed.

Lemma absent_id_witness :
  findTask (val "z") shelf = None
  /\ archiveTask codeUnitCompare day4 (val "z") shelf = (shelf, null)
  /\ deleteTask (val "z") shelf = (shelf, undefined).
Proof.
  split; [reflexivity|].
  destruct (absent_id_changes_nothing codeUnitCompare noRounding (val "z")
              shelf eq_refl)
    as (_ & _ & Harch & _ & Hdel & _).
  split; [apply Harch | exact Hdel].
Defined.

(** Deleting an id the store does not hold is not reported: the call ends
    as the deletion of a stored id does, and so does a second deletion of
    the same id. *)
Lemma delete_absent_counterexample :
  findTask (val "z") shelf = None
  /\ ~ rejected (snd (deleteTask (val "z") shelf))
  /\ snd (deleteTask (val "z") shelf) = snd (deleteTask (val "a") shelf)
  /\ findTask (val "a") (fst (deleteTask (val "a") shelf)) = None
  /\ ~ rejected (snd (deleteTask (val "a") (fst (deleteTask (val "a") shelf)))).
Proof.
  repeat split; try reflexivity; unfold rejected; simpl; discriminate.
Qed.

(** ** Commands the status does not gate *)

(** C4, as the code has it.  The status of a stored task stops none of the three
    commands.  Increase-progress on an archived task short of its target
    returns the task with one more step of progress (the double nearest to
    progress + 1), [status] still ["archived"] and [updatedAt] refreshed.
    Archive of an archived task
    returns it with only [updatedAt] changed.  Reopen of a task that is not
    archived returns it with [status] ["active"] and [updatedAt] refreshed.
    In each case the returned record is stored, and is the one its id finds
    when ids are not shared. *)
Theorem status_does_not_gate
    (localeCompare : string -> string -> Z) (fl : Q -> Q) (now : string)
    (i : js string)
    (tasks : list Task) (task : Task) :
  findTask i tasks = Some task ->
  (status task = "archived" -> (progress task < target task)%Q ->
     snd (increaseProgress localeCompare fl now i tasks)
     = val (increased fl now task)
     /\ increased fl now task
        = set_updatedAt (set_progress task (fl (progress task + 1)%Q)) now
     /\ In (increased fl now task)
           (fst (increaseProgress localeCompare fl now i tasks))
     /\ (NoDup (map id tasks) ->
         findTask i (fst (increaseProgress localeCompare fl now i tasks))
         = Some (increased fl now task)))
  /\ (status task = "archived" ->
        snd (archiveTask localeCompare now i tasks) = val (archived now task)
        /\ archived now task = set_updatedAt task now
        /\ In (archived now task)
              (fst (archiveTask localeCompare now i tasks))
        /\ (NoDup (map id tasks) ->
            findTask i (fst (archiveTask localeCompare now i tasks))
            = Some (archived now task)))
  /\ (status task <> "archived" ->
        snd (reopenTask localeCompare now i tasks) = val (reopened now task)
        /\ status (reopened now task) = "active"
        /\ updatedAt (reopened now task) = now
        /\ In (reopened now task)
              (fst (reopenTask localeCompare now i tasks))
        /\ (NoDup (map id tasks) ->
            findTask i (fst (reopenTask localeCompare now i tasks))
            = Some (reopened now task))).
Proof.
  intro Hf. split; [|split].
  - intros Hst Hlt. unfold increaseProgress. rewrite Hf.
    apply numLt_true in Hlt. rewrite Hlt. cbn [fst snd].
    split; [reflexivity|]. split; [|split].
    + unfold increased. cbn. rewrite Hst. cbn.
      now rewrite andb_false_r.
    + now apply mutated_stored.
    + intro Hn. apply mutated_found; auto using increased_id.
  - intro Hst. unfold archiveTask. rewrite Hf. cbn [fst snd].
    split; [reflexivity|]. split; [|split].
    + unfold archived, set_updatedAt, set_status. cbn. now rewrite Hst.
    + now apply mutated_stored.
    + intro Hn. apply mutated_found; auto using archived_id.
  - intros _. unfold reopenTask. rewrite Hf. cbn [fst snd].
    split; [reflexivity|]. split; [|split; [|split]].
    + unfold reopened. cbn.
      now destruct (strictEq (type task) (val "cycle")).
    + unfold reopened. cbn.
      now destruct (strictEq (type task) (val "cycle")).
    + now apply mutated_stored.
    + intro Hn. apply mutated_found; auto using reopened_id.
Qed.

Lemma status_does_not_gate_witness :
  findTask (val "d") [draft] = Some draft
  /\ status draft = "archived"
  /\ (progress draft < target draft)%Q
  /\ snd (increaseProgress codeUnitCompare noRounding day2 (val "d") [draft])
     = val (sample "d" "once" 1 2 "archived" day2).
Proof.
  split; [reflexivity|]. split; [reflexivity|]. split; [reflexivity|].
  destruct (status_does_not_gate codeUnitCompare noRounding day2 (val "d")
              [draft] draft eq_refl) as (Hinc & _).
  destruct (Hinc eq_refl eq_refl) as (Hret & E & _).
  rewrite Hret, E. reflexivity.
Defined.

(** None of the three calls is turned down, and each changes the store:
    an archived task advances, an archived task is archived again with a new
    update time, a completed task is reopened. *)
Lemma illegal_transition_counterexample :
  (findTask (val "d") [draft] = Some draft /\ status draft = "archived"
   /\ ~ (rejected (snd (increaseProgress codeUnitCompare noRounding day2
                            (val "d") [draft]))
         /\ fst (increaseProgress codeUnitCompare noRounding day2 (val "d")
                  [draft])
            = [draft]))
  /\ (findTask (val "a") shelf = Some weekly /\ status weekly = "archived"
      /\ ~ (rejected (snd (archiveTask codeUnitCompare day4 (val "a") shelf))
            /\ fst (archiveTask codeUnitCompare day4 (val "a") shelf)
               = shelf))
  /\ (findTask (val "c") shelf = Some english
      /\ status english <> "archived"
      /\ ~ (rejected (snd (reopenTask codeUnitCompare day4 (val "c") shelf))
            /\ fst (reopenTask codeUnitCompare day4 (val "c") shelf)
               = shelf)).
Proof.
  unfold rejected.
  repeat split; try reflexivity; try discriminate;
    intros [H _]; vm_compute in H; discriminate.
Qed.

(** ** Edit *)

(** C5, as the code has it.  An edit whose payload carries a kind is not turned
    down, whether or not that kind differs from the task's: the call
    returns a task, and the record stored under the id has the payload's
    kind, the id it had, and [updatedAt] set to the time of the call. *)
Theorem edit_replaces_kind
    (localeCompare : string -> string -> Z) (now now1 : string)
    (payload : Payload) (tasks : list Task) (task : Task) (kind : string) :
  findTask (get (p_id payload)) tasks = Some task ->
  p_type payload = Some (val kind) ->
  (exists u, snd (updateTask localeCompare now now1 payload tasks) = val u)
  /\ In (edited now now1 payload (toObject task))
        (fst (updateTask localeCompare now now1 payload tasks))
  /\ (NoDup (map id tasks) ->
      findTask (get (p_id payload))
        (fst (updateTask localeCompare now now1 payload tasks))
      = Some (edited now now1 payload (toObject task)))
  /\ type (edited now now1 payload (toObject task)) = val kind
  /\ id (edited now now1 payload (toObject task)) = id task
  /\ updatedAt (edited now now1 payload (toObject task)) = now.
Proof.
  intros Hf Hk.
  destruct (updateTask_found localeCompare now now1 payload tasks task Hf)
    as [Hfst Hsnd].
  split; [exact Hsnd|]. split; [|split; [|split; [|split]]].
  - rewrite Hfst. apply sortTasks_In.
    apply (mutateFound_In (hasId (get (p_id payload)))
             (fun _ => edited now now1 payload (toObject task)) tasks task Hf).
  - intro Hn. now apply edited_found.
  - unfold edited. cbn. now rewrite Hk.
  - apply edited_id. apply find_some in Hf. tauto.
  - reflexivity.
Qed.

Lemma edit_replaces_kind_witness :
  findTask (get (p_id switchKind)) [chapters] = Some chapters
  /\ p_type switchKind = Some (val "cycle")
  /\ type chapters <> val "cycle"
  /\ findTask (val "e")
       (fst (updateTask codeUnitCompare day2 day2 switchKind [chapters]))
     = Some (sample "e" "cycle" 5 8 "active" day2).
Proof.
  split; [reflexivity|]. split; [reflexivity|]. split; [discriminate|].
  destruct (edit_replaces_kind codeUnitCompare day2 day2 switchKind
              [chapters] chapters "cycle" eq_refl eq_refl)
    as (_ & _ & Hfound & _).
  apply Hfound. repeat constructor. simpl. tauto.
Defined.

(** The edit that switches the kind of a stored task is carried out: the
    call is not turned down and the stored record has the new kind. *)
Lemma immutable_kind_counterexample :
  findTask (get (p_id switchKind)) [chapters] = Some chapters
  /\ p_type switchKind = Some (val "cycle")
  /\ type chapters = val "once"
  /\ ~ (rejected (snd (updateTask codeUnitCompare day2 day2 switchKind
                         [chapters]))
        /\ fst (updateTask codeUnitCompare day2 day2 switchKind [chapters])
           = [chapters]).
Proof.
  unfold rejected. repeat split; try reflexivity.
  intros [H _]. vm_compute in H. discriminate.
Qed.

(** C3, as the code has it.  An edit that carries a target, and neither progress
    nor status, stores that target and leaves progress and status as they
    were, whatever the target, so also when it is lowered below the
    progress: progress is not clamped and the status is not recomputed. *)
Theorem edit_keeps_progress_and_status
    (localeCompare : string -> string -> Z) (now now1 : string)
    (payload : Payload) (tasks : list Task) (task : Task) (n : Q) :
  findTask (get (p_id payload)) tasks = Some task ->
  p_target payload = Some (val n) ->
  p_progress payload = None ->
  p_status payload = None ->
  In (edited now now1 payload (toObject task))
     (fst (updateTask localeCompare now now1 payload tasks))
  /\ (NoDup (map id tasks) ->
      findTask (get (p_id payload))
        (fst (updateTask localeCompare now now1 payload tasks))
      = Some (edited now now1 payload (toObject task)))
  /\ target (edited now now1 payload (toObject task)) = n
  /\ progress (edited now now1 payload (toObject task)) = progress task
  /\ status (edited now now1 payload (toObject task)) = status task.
Proof.
  intros Hf Ht Hp Hs.
  destruct (updateTask_found localeCompare now now1 payload tasks task Hf)
    as [Hfst _].
  split; [|split; [|split; [|split]]].
  - rewrite Hfst. apply sortTasks_In.
    apply (mutateFound_In (hasId (get (p_id payload)))
             (fun _ => edited now now1 payload (toObject task)) tasks task Hf).
  - intro Hn. now apply edited_found.
  - unfold edited. cbn. now rewrite Ht.
  - unfold edited. cbn. now rewrite Hp.
  - unfold edited. cbn. now rewrite Hs.
Qed.

Lemma edit_keeps_progress_witness :
  findTask (get (p_id lowerTarget)) [chapters] = Some chapters
  /\ p_target lowerTarget = Some (val 3%Q)
  /\ p_progress lowerTarget = None
  /\ p_status lowerTarget = None
  /\ (3 < progress chapters)%Q
  /\ findTask (val "e")
       (fst (updateTask codeUnitCompare day2 day2 lowerTarget [chapters]))
     = Some (sample "e" "once" 5 3 "active" day2).
Proof.
  repeat (split; [reflexivity|]).
  destruct (edit_keeps_progress_and_status codeUnitCompare day2 day2
              lowerTarget [chapters] chapters 3 eq_refl eq_refl eq_refl
              eq_refl) as (_ & Hfound & _).
  apply Hfound. repeat constructor. simpl. tauto.
Defined.

(** The scenario of the specification: progress 5, target lowered to 3.
    The stored task keeps progress 5 and status ["active"]. *)
Lemma edit_clamps_counterexample :
  findTask (get (p_id lowerTarget)) [chapters] = Some chapters
  /\ progress chapters = 5%Q
  /\ p_target lowerTarget = Some (val 3%Q)
  /\ exists task',
       findTask (val "e")
         (fst (updateTask codeUnitCompare day2 day2 lowerTarget [chapters]))
       = Some task'
       /\ ~ ((progress task' == 3)%Q /\ status task' = "completed").
Proof.
  repeat (split; [reflexivity|]).
  exists (sample "e" "once" 5 3 "active" day2).
  split; [reflexivity|]. intros [H _]. vm_compute in H. discriminate.
Qed.

(** ** Progress within target *)

Lemma wholeWithin_within (t : Task) : wholeWithin t -> withinTarget t.
Proof.
  intros (p & tg & Hp & Ht & Hle & _). unfold withinTarget.
  split.
  - apply (whole_le 0 (progress t) 0 p); [reflexivity|exact Hp|lia].
  - apply (whole_le _ _ p tg Hp Ht). lia.
Qed.

Lemma increased_within (fl : Q -> Q) (now : string) (t : Task) :
  monotone fl -> exactOnCounts fl ->
  wholeWithin t -> (progress t < target t)%Q ->
  wholeWithin (increased fl now t).
Proof.
  intros Hm He (p & tg & Hp & Ht & Hle & Hmax) Hlt.
  rewrite Hp, Ht, <- Zlt_Qlt in Hlt.
  destruct (increased_progress fl now t) as [Ep Et].
  exists (p + 1), tg. rewrite Ep, Et.
  split; [apply exact_plus_one; auto; lia|].
  split; [exact Ht|]. lia.
Qed.

Lemma increased_nonneg (fl : Q -> Q) (now : string) (t : Task) :
  monotone fl -> exactOnCounts fl ->
  (0 <= progress t)%Q -> (0 <= progress (increased fl now t))%Q.
Proof.
  intros Hm He H0. destruct (increased_progress fl now t) as [-> _].
  assert (E : (fl (inject_Z 0) == inject_Z 0)%Q) by (apply He; lia).
  change (inject_Z 0) with 0%Q in E. rewrite <- E. apply Hm. lra.
Qed.

Lemma archived_within (now : string) (t : Task) :
  withinTarget t -> withinTarget (archived now t).
Proof. intro H. exact H. Qed.

Lemma reopened_within (now : string) (t : Task) :
  withinTarget t -> withinTarget (reopened now t).
Proof.
  unfold withinTarget, reopened. cbn.
  destruct (strictEq (type t) (val "cycle")); cbn; lra.
Qed.

Lemma Forall_filter_keep {A : Type} (P : A -> Prop) (f : A -> bool)
    (l : list A) :
  Forall P l -> Forall P (filter f l).
Proof.
  intro H. apply Forall_forall. intros x Hx. apply filter_In in Hx.
  rewrite Forall_forall in H. apply H. tauto.
Qed.

(** C2, as the code has it.  In a store where every task has
    [0 <= progress <= target], archive, reopen and delete keep it so.
    Increase-progress keeps progress at or above 0, and it keeps progress
    within the target where progress and target are whole numbers (up to
    2^53, which doubles count one by one); a target that is not whole can
    be passed.  Create and edit store the progress and target they are
    given, with no clamping: create keeps the invariant when the payload's
    progress (0 if missing) lies between 0 and its target (1 if missing);
    edit keeps it when the record it stores satisfies it, which for a
    payload that carries a target and no progress means a target not below
    the task's progress. *)
Theorem within_target_preserved
    (localeCompare : string -> string -> Z) (fl : Q -> Q)
    (tasks : list Task) :
  Forall withinTarget tasks ->
  (forall now i,
     monotone fl -> exactOnCounts fl ->
     Forall wholeWithin tasks ->
     Forall wholeWithin (fst (increaseProgress localeCompare fl now i tasks))
     /\ Forall withinTarget
          (fst (increaseProgress localeCompare fl now i tasks)))
  /\ (forall now i,
        monotone fl -> exactOnCounts fl ->
        Forall (fun t => (0 <= progress t)%Q)
               (fst (increaseProgress localeCompare fl now i tasks)))
  /\ (forall now i,
        Forall withinTarget (fst (archiveTask localeCompare now i tasks)))
  /\ (forall now i,
        Forall withinTarget (fst (reopenTask localeCompare now i tasks)))
  /\ (forall i, Forall withinTarget (fst (deleteTask i tasks)))
  /\ (forall newId now1 now2 payload,
        (0 <= get (p_progress payload) ?? 0
         <= get (p_target payload) ?? 1)%Q ->
        Forall withinTarget
          (fst (addTask localeCompare newId now1 now2 payload tasks)))
  /\ (forall now now1 payload,
        (forall task, findTask (get (p_id payload)) tasks = Some task ->
                      withinTarget (edited now now1 payload (toObject task)))
        -> Forall withinTarget
             (fst (updateTask localeCompare now now1 payload tasks)))
  /\ (forall now now1 payload task n,
        findTask (get (p_id payload)) tasks = Some task ->
        p_progress payload = None ->
        p_target payload = Some (val n) ->
        (progress task <= n)%Q ->
        Forall withinTarget
          (fst (updateTask localeCompare now now1 payload tasks))).
Proof.
  intro Hall.
  assert (Hedit : forall now now1 payload,
    (forall task, findTask (get (p_id payload)) tasks = Some task ->
                  withinTarget (edited now now1 payload (toObject task))) ->
    Forall withinTarget
      (fst (updateTask localeCompare now now1 payload tasks))).
  { intros now now1 payload Hok.
    destruct (findTask (get (p_id payload)) tasks) as [task|] eqn:Hf.
    - destruct (updateTask_found localeCompare now now1 payload tasks task Hf)
        as [-> _].
      apply sortTasks_Forall, mutateFound_Forall; [exact Hall|].
      intros x _. now apply Hok.
    - now rewrite updateTask_absent. }
  assert (Hpos : Forall (fun t => (0 <= progress t)%Q) tasks).
  { eapply Forall_impl; [|exact Hall]. intros t Ht. exact (proj1 Ht). }
  assert (Hwhole : forall now i,
    monotone fl -> exactOnCounts fl -> Forall wholeWithin tasks ->
    Forall wholeWithin (fst (increaseProgress localeCompare fl now i tasks))).
  { intros now i Hm He Hw. unfold increaseProgress.
    destruct (findTask i tasks) as [task|] eqn:Hf; [|exact Hw].
    destruct (numLt (progress task) (target task)) eqn:E; [|exact Hw].
    cbn [fst]. apply sortTasks_Forall, mutateFound_Forall; [exact Hw|].
    intros x Hx. unfold findTask in Hf. rewrite Hx in Hf. injection Hf as ->.
    apply increased_within; [exact Hm|exact He| |now apply numLt_true].
    apply find_some in Hx. rewrite Forall_forall in Hw.
    apply Hw. tauto. }
  split; [|split; [|split; [|split; [|split; [|split; [|split]]]]]].
  - intros now i Hm He Hw. split; [now apply Hwhole|].
    eapply Forall_impl; [|now apply Hwhole].
    intros t. apply wholeWithin_within.
  - intros now i Hm He. unfold increaseProgress.
    destruct (findTask i tasks) as [task|] eqn:Hf; [|exact Hpos].
    destruct (numLt (progress task) (target task)) eqn:E; [|exact Hpos].
    cbn [fst]. apply sortTasks_Forall, mutateFound_Forall; [exact Hpos|].
    intros x Hx. apply increased_nonneg; [exact Hm|exact He|].
    apply find_some in Hx. rewrite Forall_forall in Hpos.
    apply Hpos. tauto.
  - intros now i. unfold archiveTask.
    destruct (findTask i tasks) as [task|] eqn:Hf; [|exact Hall].
    cbn [fst]. apply sortTasks_Forall, mutateFound_Forall; [exact Hall|].
    intros x Hx. apply archived_within.
    apply find_some in Hx. rewrite Forall_forall in Hall. apply Hall. tauto.
  - intros now i. unfold reopenTask.
    destruct (findTask i tasks) as [task|] eqn:Hf; [|exact Hall].
    cbn [fst]. apply sortTasks_Forall, mutateFound_Forall; [exact Hall|].
    intros x Hx. apply reopened_within.
    apply find_some in Hx. rewrite Forall_forall in Hall. apply Hall. tauto.
  - intro i. unfold deleteTask. cbn [fst]. now apply Forall_filter_keep.
  - intros newId now1 now2 payload Hok. unfold addTask. cbn [fst].
    apply sortTasks_Forall. constructor; [exact Hok|exact Hall].
  - exact Hedit.
  - intros now now1 payload task n Hf Hp Ht Hle. apply Hedit.
    intros task' Hf'. rewrite Hf in Hf'. injection Hf' as <-.
    unfold withinTarget, edited. cbn. rewrite Hp, Ht. cbn.
    apply find_some in Hf. rewrite Forall_forall in Hall.
    destruct (Hall task (proj1 Hf)) as [H0 _]. lra.
Qed.

Lemma shelf_within : Forall withinTarget shelf.
Proof. repeat constructor; unfold withinTarget; cbn; lra. Qed.

Lemma chapters_whole : Forall wholeWithin [chapters].
Proof.
  repeat constructor. exists 5, 8.
  split; [reflexivity|]. split; [reflexivity|]. lia.
Qed.

(** Reopen resets the archived cycle task of the shelf to 0 of 3; an
    increase takes the task at 5 of 8 to 6 of 8. *)
Lemma within_target_witness :
  Forall withinTarget shelf
  /\ Forall withinTarget (fst (reopenTask codeUnitCompare day4 (val "a") shelf))
  /\ Forall withinTarget [chapters]
  /\ fst (increaseProgress codeUnitCompare noRounding day2 (val "e")
            [chapters])
     = [sample "e" "once" 6 8 "active" day2]
  /\ Forall withinTarget
       (fst (increaseProgress codeUnitCompare noRounding day2 (val "e")
               [chapters])).
Proof.
  assert (Hc : Forall withinTarget [chapters])
    by (repeat constructor; cbn; lra).
  split; [exact shelf_within|].
  split; [|split; [exact Hc|split; [vm_compute; reflexivity|]]].
  - exact (proj1 (proj2 (proj2 (proj2
             (within_target_preserved codeUnitCompare noRounding shelf
                shelf_within))))
             day4 (val "a")).
  - exact (proj2 (proj1 (within_target_preserved codeUnitCompare noRounding
                           [chapters] Hc)
                    day2 (val "e") noRounding_monotone noRounding_exact
                    chapters_whole)).
Defined.

(** A task is created with target 2 and advanced twice; every task is
    within its target.  The dialog then lowers the target to 1: the stored
    task has progress 2 and target 1. *)
Lemma within_target_counterexample :
  Forall withinTarget (run codeUnitCompare noRounding (firstn 3 overshoot) [])
  /\ run codeUnitCompare noRounding overshoot []
     = [sample "e" "once" 2 1 "completed" day4]
  /\ ~ Forall withinTarget (run codeUnitCompare noRounding overshoot []).
Proof.
  assert (E3 : run codeUnitCompare noRounding (firstn 3 overshoot) []
               = [sample "e" "once" 2 2 "completed" day3])
    by (vm_compute; reflexivity).
  assert (E4 : run codeUnitCompare noRounding overshoot []
               = [sample "e" "once" 2 1 "completed" day4])
    by (vm_compute; reflexivity).
  rewrite E3, E4. split; [|split].
  - repeat constructor; unfold withinTarget; cbn; lra.
  - reflexivity.
  - intro H. inversion H as [|t l [_ Hle] _]. cbn in Hle. lra.
Qed.

(** ** The progress bar *)

Module TaskCardFacts.

Import TaskCard.

Lemma orOne_not_zero (target : js Q) : ~ (orOne target == 0)%Q.
Proof.
  destruct target as [| |t]; simpl; try discriminate.
  destruct (Qeq_bool t 0) eqn:E; [discriminate|].
  now apply Qeq_bool_neq.
Qed.

Lemma orOne_positive (target : js Q) :
  (forall t, target = val t -> (0 <= t)%Q) -> (0 < orOne target)%Q.
Proof.
  intro H. destruct target as [| |t]; simpl; try reflexivity.
  destruct (Qeq_bool t 0) eqn:E; [reflexivity|].
  apply Qeq_bool_neq in E. specialize (H t eq_refl).
  apply Qle_lt_or_eq in H. destruct H as [H|H]; [exact H|].
  exfalso. apply E. symmetry. exact H.
Qed.

Lemma Math_round_nonneg (x : Q) : (0 <= x)%Q -> 0 <= Math_round x.
Proof.
  intro H. unfold Math_round.
  change 0 with (Qfloor 0). apply Qfloor_resp_le.
  apply Qle_trans with x; [exact H|].
  rewrite <- (Qplus_0_r x) at 1. apply Qplus_le_r. discriminate.
Qed.

Lemma Math_round_nonpos (x : Q) : (x <= 0)%Q -> Math_round x <= 0.
Proof.
  intro H. unfold Math_round.
  change 0 with (Qfloor (1 # 2)). apply Qfloor_resp_le.
  rewrite <- (Qplus_0_l (1 # 2)) at 2. apply Qplus_le_l. exact H.
Qed.

Lemma quotient_nonneg (p d : Z) :
  0 <= p -> 0 < d -> (0 <= inject_Z p / inject_Z d)%Q.
Proof.
  intros Hp Hd. unfold Qdiv. apply Qmult_le_0_compat.
  - change 0%Q with (inject_Z 0). now rewrite <- Zle_Qle.
  - apply Qinv_le_0_compat.
    change 0%Q with (inject_Z 0). rewrite <- Zle_Qle. lia.
Qed.

Lemma percentage_nonneg (fl : Q -> Q) (progress : Q) (target : js Q) :
  rounding fl ->
  (0 <= progress)%Q ->
  (forall t, target = val t -> (0 <= t)%Q) ->
  0 <= percentage fl progress target.
Proof.
  intros [Hmono Hzero] Hp Ht.
  unfold percentage.
  apply Z.min_glb; [lia|].
  apply Math_round_nonneg.
  rewrite <- Hzero. apply Hmono.
  apply Qmult_le_0_compat; [|discriminate].
  rewrite <- Hzero. apply Hmono.
  unfold Qdiv. apply Qmult_le_0_compat; [exact Hp|].
  apply Qinv_le_0_compat, Qlt_le_weak. now apply orOne_positive.
Qed.

Lemma percentage_nonpos (fl : Q -> Q) (progress : Q) (target : js Q) :
  rounding fl ->
  (progress <= 0)%Q ->
  (forall t, target = val t -> (0 <= t)%Q) ->
  percentage fl progress target <= 0.
Proof.
  intros [Hmono Hzero] Hp Ht.
  unfold percentage.
  etransitivity; [apply Z.le_min_r|].
  apply Math_round_nonpos.
  rewrite <- Hzero. apply Hmono.
  assert (Hq : (fl (progress / orOne target) <= 0)%Q).
  { rewrite <- Hzero. apply Hmono.
    assert (Hi : (0 <= / orOne target)%Q)
      by (apply Qinv_le_0_compat, Qlt_le_weak; now apply orOne_positive).
    unfold Qdiv. nra. }
  assert (H100 : (inject_Z 100 == 100)%Q) by reflexivity.
  nra.
Qed.

Lemma percentage_range (fl : Q -> Q) (progress : Q) (target : js Q) :
  rounding fl ->
  (0 <= progress)%Q ->
  (forall t, target = val t -> (0 <= t)%Q) ->
  0 <= percentage fl progress target <= 100.
Proof.
  intros Hr Hp Ht. split; [now apply percentage_nonneg|].
  unfold percentage. apply Z.le_min_l.
Qed.

(** C10, as the code has it.  The percentage the progress bar shows is an
    integer that is at most 100: a rounded value of 100 or more is shown as
    100.  The divisor is never zero: a target that is zero, [null] or
    missing is replaced by 1, any other target is used as it is.  There is
    no floor at 0: the percentage is at least 0 for a task whose progress
    and target are not negative, and at most 0 for a task whose progress is
    negative and whose target is not. *)
Theorem percentage_between_0_and_100
    (fl : Q -> Q) (progress : Q) (target : js Q) :
  rounding fl ->
  percentage fl progress target <= 100
  /\ ~ (orOne target == 0)%Q
  /\ (target = null \/ target = undefined -> orOne target = 1%Q)
  /\ (forall t, target = val t -> (t == 0)%Q -> orOne target = 1%Q)
  /\ (forall t, target = val t -> ~ (t == 0)%Q -> orOne target = t)
  /\ (100 <= Math_round
               (fl (fl (progress / orOne target) * inject_Z 100))%Q ->
      percentage fl progress target = 100)
  /\ ((0 <= progress)%Q ->
      (forall t, target = val t -> (0 <= t)%Q) ->
      0 <= percentage fl progress target <= 100)
  /\ ((progress < 0)%Q ->
      (forall t, target = val t -> (0 <= t)%Q) ->
      percentage fl progress target <= 0).
Proof.
  intro Hr.
  split; [|split; [|split; [|split; [|split; [|split; [|split]]]]]].
  - unfold percentage. apply Z.le_min_l.
  - apply orOne_not_zero.
  - intros [->| ->]; reflexivity.
  - intros t -> Hz. simpl. apply Qeq_bool_iff in Hz. now rewrite Hz.
  - intros t -> Hne. simpl.
    destruct (Qeq_bool t 0) eqn:E; [|reflexivity].
    apply Qeq_bool_iff in E. contradiction.
  - intro Hcap. unfold percentage. now apply Z.min_l.
  - intros Hp Ht. now apply percentage_range.
  - intros Hp Ht. apply percentage_nonpos; [exact Hr| |exact Ht].
    now apply Qlt_le_weak.
Qed.

(** Exact arithmetic is one rounding the hypotheses allow. *)
Lemma exact_rounding : rounding (fun x => x).
Proof. split; [intros x y H; exact H|reflexivity]. Qed.

Lemma percentage_witness :
  rounding (fun x => x)
  /\ percentage (fun x => x) 3 (val 8%Q) = 38
  /\ 0 <= percentage (fun x => x) 3 (val 8%Q) <= 100.
Proof.
  assert (H8 : forall t : Q, val 8%Q = val t -> (0 <= t)%Q)
    by (intros t E; injection E as <-; discriminate).
  split; [exact exact_rounding|]. split; [reflexivity|].
  apply (proj1 (proj2 (proj2 (proj2 (proj2 (proj2 (proj2
           (percentage_between_0_and_100 (fun x => x) 3 (val 8%Q)
              exact_rounding)))))))); [discriminate|exact H8].
Defined.

(** [importTasks] stores the item's progress as it is given; the card of
    the stored task shows -50. *)
Lemma percentage_negative_counterexample :
  rounding (fun x => x)
  /\ (exists task,
        importTasks codeUnitCompare [(stampOf 0, overdrawn)] [] = [task]
        /\ progress task = (-1)%Q
        /\ target task = 2%Q
        /\ progressPercentage (fun x => x) task = -50
        /\ ~ (0 <= progressPercentage (fun x => x) task <= 100)).
Proof.
  split; [exact exact_rounding|].
  eexists. split; [vm_compute; reflexivity|].
  split; [reflexivity|]. split; [reflexivity|].
  split; [reflexivity|].
  intros [H _]. vm_compute in H. now apply H.
Qed.

(** The bar of a stored task. *)
Corollary progressPercentage_bounds (fl : Q -> Q) (task : Task) :
  rounding fl -> (0 <= progress task)%Q -> (0 <= target task)%Q ->
  0 <= progressPercentage fl task <= 100.
Proof.
  intros Hr Hp Ht. unfold progressPercentage.
  apply percentage_range; [exact Hr|exact Hp|].
  intros t E. injection E as <-. exact Ht.
Qed.

Example percentage_three_of_eight :
  percentage (fun x => x) 3 (val 8%Q) = 38.
Proof. reflexivity. Qed.

Example percentage_zero_target :
  percentage (fun x => x) 2 (val 0%Q) = 100.
Proof. reflexivity. Qed.

Example percentage_missing_target :
  percentage (fun x => x) 0 undefined = 0.
Proof. reflexivity. Qed.

End TaskCardFacts.

(** ** The stores the panel builds *)

Section PanelSessions.

Variable localeCompare : string -> string -> Z.
Variable fl : Q -> Q.

Lemma increased_counted (now : string) (t : Task) :
  TaskCard.rounding fl -> counted t -> counted (increased fl now t).
Proof.
  unfold counted. destruct (increased_progress fl now t) as [-> ->].
  intros [Hm Hz] [H0 H1]. split; [|exact H1].
  rewrite <- Hz. apply Hm. lra.
Qed.

Lemma reopened_counted (now : string) (t : Task) :
  counted t -> counted (reopened now t).
Proof.
  unfold counted, reopened. cbn.
  destruct (strictEq (type t) (val "cycle")); cbn; lra.
Qed.

(** Commands issued by the panel keep the counters of every task in shape:
    progress is never negative and the target always above zero. *)
Lemma exec_counted (c : Command) (tasks : list Task) :
  TaskCard.rounding fl -> fromPanel c -> Forall counted tasks ->
  Forall counted (fst (exec localeCompare fl c tasks)).
Proof.
  intros Hr Hc Hall.
  assert (Hin : forall p x, find p tasks = Some x -> counted x).
  { intros p x Hx. apply find_some in Hx.
    rewrite Forall_forall in Hall. apply Hall. tauto. }
  destruct c as [newId now1 now2 payload|now now1 payload|i|now i|now i|now i];
    cbn [exec].
  - destruct Hc as (i & nm & ds & ty & tg & -> & Htg).
    unfold addTask. cbn [fst]. apply sortTasks_Forall.
    constructor; [|exact Hall]. unfold counted. cbn. lra.
  - destruct Hc as (i & nm & ds & ty & tg & -> & Htg).
    destruct (findTask (get (p_id (formPayload i nm ds ty tg))) tasks)
      as [task|] eqn:Hf.
    + destruct (updateTask_found localeCompare now now1 _ tasks task Hf)
        as [-> _].
      apply sortTasks_Forall, mutateFound_Forall; [exact Hall|].
      intros x _. unfold counted. cbn.
      destruct (Hin _ _ Hf) as [H0 _]. lra.
    + now rewrite updateTask_absent.
  - unfold deleteTask. cbn [fst]. now apply Forall_filter_keep.
  - unfold increaseProgress.
    destruct (findTask i tasks) as [task|] eqn:Hf; [|exact Hall].
    destruct (numLt (progress task) (target task)); [|exact Hall].
    cbn [fst]. apply sortTasks_Forall, mutateFound_Forall; [exact Hall|].
    intros x Hx. apply increased_counted; [exact Hr|].
    now apply (Hin (hasId i)).
  - unfold archiveTask.
    destruct (findTask i tasks) as [task|] eqn:Hf; [|exact Hall].
    cbn [fst]. apply sortTasks_Forall, mutateFound_Forall; [exact Hall|].
    intros x Hx. exact (Hin (hasId i) x Hx).
  - unfold reopenTask.
    destruct (findTask i tasks) as [task|] eqn:Hf; [|exact Hall].
    cbn [fst]. apply sortTasks_Forall, mutateFound_Forall; [exact Hall|].
    intros x Hx. apply reopened_counted. now apply (Hin (hasId i)).
Qed.

Lemma seeds_counted (stamp : nat -> Stamp) (loaded : bool)
    (tasks : list Task) :
  Forall counted tasks ->
  Forall counted (fst (refreshTasks localeCompare stamp loaded tasks)).
Proof.
  intro Hall. unfold refreshTasks.
  destruct (negb loaded && (List.length tasks =? 0)%nat); [|exact Hall].
  cbn [fst]. apply sortTasks_Forall.
  repeat constructor; cbn; lra.
Qed.

Lemma run_counted (cs : list Command) (tasks : list Task) :
  TaskCard.rounding fl -> Forall fromPanel cs -> Forall counted tasks ->
  Forall counted (run localeCompare fl cs tasks).
Proof.
  intro Hr. revert tasks.
  induction cs as [|c cs IH]; intros tasks Hcs Hall; [exact Hall|].
  inversion Hcs as [|? ? Hc Hcs']; subst.
  apply IH; [exact Hcs'|]. now apply exec_counted.
Qed.

(** X25.  The bar of every task of a store built by the panel, from the
    seeds through commands the panel issues, shows between 0 and 100. *)
Lemma panel_percentages (stamp : nat -> Stamp)
    (cs : list Command) (task : Task) :
  TaskCard.rounding fl -> Forall fromPanel cs ->
  In task (run localeCompare fl cs
             (fst (refreshTasks localeCompare stamp false []))) ->
  0 <= TaskCard.progressPercentage fl task <= 100.
Proof.
  intros Hr Hcs Hin.
  assert (Hall : Forall counted
            (run localeCompare fl cs
               (fst (refreshTasks localeCompare stamp false [])))).
  { apply run_counted; [exact Hr|exact Hcs|].
    apply seeds_counted. constructor. }
  rewrite Forall_forall in Hall. destruct (Hall task Hin) as [Hp Ht].
  apply TaskCardFacts.progressPercentage_bounds; [exact Hr|exact Hp|lra].
Qed.

(** Ids stay unshared as long as every generated id is new. *)
Lemma exec_ids_unique (c : Command) (tasks : list Task) :
  freshId c tasks -> NoDup (map id tasks) ->
  NoDup (map id (fst (exec localeCompare fl c tasks))).
Proof.
  intros Hfresh Hn.
  assert (Hmut : forall i f, (forall u, id (f u) = id u) ->
            NoDup (map id (sortTasks localeCompare
                             (mutateFound (hasId i) f tasks)))).
  { intros i f Hf. eapply Permutation_NoDup; [|exact Hn].
    apply Permutation_sym. now apply mutated_ids. }
  destruct c as [newId now1 now2 payload|now now1 payload|i|now i|now i|now i];
    cbn [exec].
  - unfold addTask. cbn [fst].
    eapply Permutation_NoDup;
      [apply Permutation_map, Permutation_sym, sortTasks_perm|].
    cbn. now constructor.
  - destruct (findTask (get (p_id payload)) tasks) as [task|] eqn:Hf.
    + destruct (updateTask_found localeCompare now now1 payload tasks task Hf)
        as [-> _].
      eapply Permutation_NoDup;
        [apply Permutation_map, Permutation_sym, sortTasks_perm|].
      assert (Hid : id (edited now now1 payload (toObject task)) = id task)
        by (apply edited_id; apply find_some in Hf; tauto).
      assert (E : map id (mutateFound (hasId (get (p_id payload)))
                  (fun _ => edited now now1 payload (toObject task)) tasks)
                  = map id tasks).
      { unfold findTask in Hf. clear Hn Hmut Hfresh.
        induction tasks as [|y l IH]; [reflexivity|].
        cbn [mutateFound find] in *.
        destruct (hasId (get (p_id payload)) y).
        - injection Hf as ->. cbn [map]. now rewrite Hid.
        - cbn [map]. now rewrite IH. }
      now rewrite E.
    + now rewrite updateTask_absent.
  - unfold deleteTask. cbn [fst].
    clear Hmut Hfresh. induction tasks as [|y l IH]; [constructor|].
    inversion Hn as [|? ? Hy Hn']; subst. cbn [filter].
    destruct (negb (strictEq (id y) i)); [|now apply IH].
    cbn [map]. constructor; [|now apply IH].
    intro Hin. apply Hy. apply in_map_iff in Hin.
    destruct Hin as (x & Ex & Hx). apply filter_In in Hx.
    apply in_map_iff. exists x. tauto.
  - unfold increaseProgress.
    destruct (findTask i tasks) as [task|]; [|exact Hn].
    destruct (numLt (progress task) (target task)); [|exact Hn].
    cbn [fst]. apply Hmut, increased_id.
  - unfold archiveTask.
    destruct (findTask i tasks) as [task|]; [|exact Hn].
    cbn [fst]. apply Hmut, archived_id.
  - unfold reopenTask.
    destruct (findTask i tasks) as [task|]; [|exact Hn].
    cbn [fst]. apply Hmut, reopened_id.
Qed.

End PanelSessions.

(** ** The scenarios of the specification, run *)

Example cycle_scenario_before_archive :
  run codeUnitCompare noRounding (firstn 4 cycleScenario) []
  = [mkTask (val "w") (val "weekly report") "" (val "cycle") 3 3 null null
            null "completed" day1 day3].
Proof. vm_compute. reflexivity. Qed.

Example cycle_scenario_archived :
  run codeUnitCompare noRounding (firstn 5 cycleScenario) []
  = [mkTask (val "w") (val "weekly report") "" (val "cycle") 3 3 null null
            null "archived" day1 day4].
Proof. vm_compute. reflexivity. Qed.

Example cycle_scenario_reopened :
  run codeUnitCompare noRounding cycleScenario []
  = [mkTask (val "w") (val "weekly report") "" (val "cycle") 0 3 null null
            null "active" day1 day5].
Proof. vm_compute. reflexivity. Qed.

Example once_scenario_reopened :
  run codeUnitCompare noRounding onceScenario []
  = [sample "o" "once" 1 1 "active" day4].
Proof. vm_compute. reflexivity. Qed.

Example session_store :
  run codeUnitCompare noRounding session []
  = [mkTask (val "a") (val "weekly report") "" (val "cycle") 0 2 null null
            null "active" day1 day5].
Proof. vm_compute. reflexivity. Qed.

(** * Further properties of the composable, the card, the dialog and the
    panel *)

(** ** Sorting a sorted array; a touched task moves to the front *)

Lemma first_split {A : Type} (p : A -> bool) (l : list A) (x : A) :
  find p l = Some x ->
  exists l1 l2, l = l1 ++ x :: l2
                /\ forallb (fun y => negb (p y)) l1 = true
                /\ p x = true.
Proof.
  intro H.
  destruct (mutateFound_split p (fun y => y) l x H) as (l1 & l2 & E & _ & F).
  exists l1, l2. apply find_some in H. tauto.
Qed.

Lemma mutateFound_at {A : Type} (p : A -> bool) (f : A -> A)
    (l1 l2 : list A) (x : A) :
  forallb (fun y => negb (p y)) l1 = true -> p x = true ->
  mutateFound p f (l1 ++ x :: l2) = l1 ++ f x :: l2
  /\ findIndex p (l1 ++ x :: l2) = Some (List.length l1)
  /\ find p (l1 ++ x :: l2) = Some x.
Proof.
  intros H1 Hx. induction l1 as [|y l1 IH]; cbn.
  - now rewrite Hx.
  - cbn in H1. apply andb_true_iff in H1. destruct H1 as [Hy H1].
    apply negb_true_iff in Hy. rewrite Hy.
    destruct (IH H1) as (-> & -> & ->). auto.
Qed.

Section SortedArrays.

Variable localeCompare : string -> string -> Z.
Hypothesis lc_consistent : consistent localeCompare.

Abbreviation cmp' := (compareTasks localeCompare).
Abbreviation sorted' := (descending localeCompare).
Abbreviation sort' := (sortTasks localeCompare).

Lemma insertTask_front (x : Task) (l : list Task) :
  Forall (fun y => cmp' x y <= 0) l ->
  insertTask localeCompare x l = x :: l.
Proof.
  intro H. destruct l as [|y l]; [reflexivity|].
  inversion H as [|? ? Hy _]; subst. cbn [insertTask].
  apply Z.leb_le in Hy. now rewrite Hy.
Qed.

Lemma sortTasks_sorted (l : list Task) : sorted' l -> sort' l = l.
Proof.
  unfold descending, sortTasks.
  induction 1 as [|x l Hs IH Hx]; [reflexivity|].
  cbn [fold_right]. rewrite IH. now apply insertTask_front.
Qed.

Lemma descending_remove (l1 l2 : list Task) (x : Task) :
  sorted' (l1 ++ x :: l2) -> sorted' (l1 ++ l2).
Proof.
  unfold descending. induction l1 as [|y l1 IH]; cbn [app]; intro H.
  - now inversion H.
  - inversion H as [|? ? Hs Hy]; subst. constructor; [now apply IH|].
    rewrite Forall_app in *. destruct Hy as [H1 H2].
    split; [exact H1|]. now inversion H2.
Qed.

Lemma sort_touched (l1 l2 : list Task) (e : Task) :
  sorted' (l1 ++ l2) ->
  Forall (fun y => 0 < cmp' y e) l1 ->
  Forall (fun y => cmp' e y <= 0) l2 ->
  sort' (l1 ++ e :: l2) = e :: l1 ++ l2.
Proof.
  induction l1 as [|y l1 IH]; cbn [app]; intros Hs H1 H2.
  - change (sort' (e :: l2)) with (insertTask localeCompare e (sort' l2)).
    rewrite (sortTasks_sorted l2 Hs). now apply insertTask_front.
  - inversion H1 as [|? ? Hy H1']; subst.
    change (sort' (y :: l1 ++ e :: l2))
      with (insertTask localeCompare y (sort' (l1 ++ e :: l2))).
    rewrite IH; [|now inversion Hs|exact H1'|exact H2].
    cbn [insertTask]. apply Z.leb_gt in Hy. rewrite Hy. f_equal.
    apply insertTask_front. now inversion Hs.
Qed.

(** In a sorted store whose update times are all older than [now], a task
    stamped [now] that takes the place of one of them ends up first, the
    others keeping their order. *)
Lemma touched_first (now : string) (before after : list Task)
    (task e : Task) :
  sorted' (before ++ task :: after) ->
  Forall (fun y => localeCompare (updatedAt y) now < 0)
         (before ++ task :: after) ->
  updatedAt e = now ->
  sort' (before ++ e :: after) = e :: before ++ after.
Proof.
  intros Hs Hold Hnow.
  rewrite Forall_app in Hold. destruct Hold as [Ho1 Ho2].
  apply sort_touched.
  - now apply descending_remove with task.
  - eapply Forall_impl; [|exact Ho1]. intros y Hy.
    unfold compareTasks. cbn [nullish]. rewrite Hnow.
    pose proof (proj1 lc_consistent now (updatedAt y)) as F.
    rewrite (Z.sgn_neg _ Hy) in F.
    destruct (Z.sgn_spec (localeCompare now (updatedAt y)))
      as [[? E]|[[? E]|[? E]]]; lia.
  - apply Forall_inv_tail in Ho2.
    eapply Forall_impl; [|exact Ho2]. intros y Hy. cbv beta in Hy.
    unfold compareTasks. cbn [nullish]. rewrite Hnow. lia.
Qed.

End SortedArrays.

(** X1.  [sortTasks] leaves a sorted array as it is, so sorting twice is
    sorting once. *)
Theorem sortTasks_idempotent (localeCompare : string -> string -> Z) :
  consistent localeCompare ->
  (forall tasks, descending localeCompare tasks ->
     sortTasks localeCompare tasks = tasks)
  /\ (forall tasks,
        sortTasks localeCompare (sortTasks localeCompare tasks)
        = sortTasks localeCompare tasks).
Proof.
  intro Hc. split.
  - intros tasks Hs. now apply sortTasks_sorted.
  - intro tasks. apply sortTasks_sorted.
    now apply sortTasks_descending.
Qed.

Lemma sortTasks_idempotent_witness :
  consistent codeUnitCompare
  /\ sortTasks codeUnitCompare (sortTasks codeUnitCompare [english; weekly])
     = [weekly; english].
Proof.
  split; [exact codeUnitCompare_consistent|].
  rewrite (proj2 (sortTasks_idempotent codeUnitCompare
                    codeUnitCompare_consistent)).
  vm_compute. reflexivity.
Defined.

Lemma before_unmatched (i : js string) (before : list Task) :
  Forall (fun y => id y <> i) before ->
  forallb (fun y => negb (hasId i y)) before = true.
Proof.
  induction 1 as [|y l Hy _ IH]; [reflexivity|].
  cbn. rewrite IH, andb_true_r. apply negb_true_iff.
  unfold hasId. destruct (strictEq (id y) i) eqn:E; [|reflexivity].
  apply strictEq_true in E. contradiction.
Qed.

(** X2.  In a sorted store whose update times are all older than the time
    of the call, archive, reopen and (below the target) increase-progress
    move the task they touch, the first with the given id, to the front of
    the list and leave the others in the order they had. *)
Theorem touched_task_moves_to_front
    (localeCompare : string -> string -> Z) (fl : Q -> Q) (now : string)
    (before after : list Task) (task : Task) :
  consistent localeCompare ->
  descending localeCompare (before ++ task :: after) ->
  Forall (fun y => localeCompare (updatedAt y) now < 0)
         (before ++ task :: after) ->
  Forall (fun y => id y <> id task) before ->
  fst (archiveTask localeCompare now (id task) (before ++ task :: after))
  = archived now task :: before ++ after
  /\ fst (reopenTask localeCompare now (id task) (before ++ task :: after))
     = reopened now task :: before ++ after
  /\ ((progress task < target task)%Q ->
      fst (increaseProgress localeCompare fl now (id task)
             (before ++ task :: after))
      = increased fl now task :: before ++ after).
Proof.
  intros Hc Hs Hold Hb.
  pose proof (before_unmatched _ _ Hb) as H1.
  assert (Ht : hasId (id task) task = true) by apply strictEq_refl.
  assert (Hf : findTask (id task) (before ++ task :: after) = Some task)
    by apply (mutateFound_at _ (fun t => t) before after task H1 Ht).
  assert (Hgen : forall f, updatedAt (f task) = now ->
            sortTasks localeCompare
              (mutateFound (hasId (id task)) f (before ++ task :: after))
            = f task :: before ++ after).
  { intros f Hnow.
    destruct (mutateFound_at (hasId (id task)) f before after task H1 Ht)
      as (-> & _).
    now apply touched_first with (now := now) (task := task). }
  split; [|split].
  - unfold archiveTask. rewrite Hf. cbn [fst]. now apply Hgen.
  - unfold reopenTask. rewrite Hf. cbn [fst]. apply Hgen.
    unfold reopened. cbn.
    now destruct (strictEq (type task) (val "cycle")).
  - intro Hlt. unfold increaseProgress. rewrite Hf.
    apply numLt_true in Hlt. rewrite Hlt. cbn [fst]. apply Hgen.
    unfold increased. cbn.
    now destruct (numLe (target task) (fl (progress task + 1)%Q)
                  && negb (String.eqb (status task) "archived")).
Qed.

Lemma shelf_descending : descending codeUnitCompare shelf.
Proof.
  unfold descending, shelf.
  repeat constructor; vm_compute; discriminate.
Qed.

Lemma shelf_older :
  Forall (fun y => codeUnitCompare (updatedAt y) day4 < 0) shelf.
Proof. repeat constructor. Qed.

Lemma shelf_ids : NoDup (map id shelf).
Proof. repeat constructor; simpl; intuition discriminate. Qed.

Lemma shelf_before_english :
  Forall (fun y => id y <> id english) [weekly; release].
Proof. repeat constructor; discriminate. Qed.

Lemma touched_task_witness :
  consistent codeUnitCompare
  /\ descending codeUnitCompare ([weekly; release] ++ english :: [])
  /\ Forall (fun y => codeUnitCompare (updatedAt y) day4 < 0)
            ([weekly; release] ++ english :: [])
  /\ Forall (fun y => id y <> id english) [weekly; release]
  /\ fst (archiveTask codeUnitCompare day4 (val "c") shelf)
     = [archived day4 english; weekly; release].
Proof.
  split; [exact codeUnitCompare_consistent|].
  split; [exact shelf_descending|]. split; [exact shelf_older|].
  split; [exact shelf_before_english|].
  exact (proj1 (touched_task_moves_to_front codeUnitCompare noRounding day4
                  [weekly; release] [] english codeUnitCompare_consistent
                  shelf_descending shelf_older shelf_before_english)).
Defined.

(** ** What [updateTask] and [addTask] return *)

(** X3.  [updateTask] returns the element that stands, after the sort, at
    the index the task had before it.  In a sorted store whose update times
    are all older than the time of the call the edited task, the first with
    the payload's id, moves to the front; the call then returns the edited
    task only if it was first already, and otherwise returns the task that
    stood just before it. *)
Theorem updateTask_returns_old_position
    (localeCompare : string -> string -> Z) (now now1 : string)
    (payload : Payload) (before after : list Task) (task : Task) :
  consistent localeCompare ->
  descending localeCompare (before ++ task :: after) ->
  Forall (fun y => localeCompare (updatedAt y) now < 0)
         (before ++ task :: after) ->
  Forall (fun y => id y <> get (p_id payload)) before ->
  id task = get (p_id payload) ->
  fst (updateTask localeCompare now now1 payload (before ++ task :: after))
  = edited now now1 payload (toObject task) :: before ++ after
  /\ (before = [] ->
      snd (updateTask localeCompare now now1 payload
             (before ++ task :: after))
      = val (edited now now1 payload (toObject task)))
  /\ (forall earlier previous, before = earlier ++ [previous] ->
      snd (updateTask localeCompare now now1 payload
             (before ++ task :: after))
      = val previous).
Proof.
  intros Hc Hs Hold Hb Hid.
  pose proof (before_unmatched _ _ Hb) as H1.
  assert (Ht : hasId (get (p_id payload)) task = true)
    by (unfold hasId; rewrite Hid; apply strictEq_refl).
  set (e := edited now now1 payload (toObject task)).
  destruct (mutateFound_at (hasId (get (p_id payload))) (fun _ => e)
              before after task H1 Ht) as (Em & Ei & _).
  assert (Eu : updateTask localeCompare now now1 payload
                 (before ++ task :: after)
               = (e :: before ++ after,
                  at_index (e :: before ++ after) (List.length before))).
  { unfold updateTask. rewrite Ei.
    assert (En : nth_error (before ++ task :: after) (List.length before)
                 = Some task).
    { rewrite nth_error_app2 by lia. now rewrite Nat.sub_diag. }
    rewrite En. fold e.
    rewrite (splice1_mutateFound _ _ _ e Ei), Em.
    rewrite (touched_first localeCompare Hc now before after task e
               Hs Hold eq_refl).
    reflexivity. }
  rewrite Eu. cbn [fst snd]. split; [reflexivity|]. split.
  - intros ->. reflexivity.
  - intros earlier previous ->. unfold at_index.
    rewrite length_app. cbn [List.length].
    replace (List.length earlier + 1)%nat with (S (List.length earlier))
      by lia.
    cbn [nth_error]. rewrite <- app_assoc. cbn [app].
    rewrite nth_error_app2 by lia. now rewrite Nat.sub_diag.
Qed.

Lemma updateTask_returns_witness :
  consistent codeUnitCompare
  /\ descending codeUnitCompare ([weekly; release] ++ english :: [])
  /\ Forall (fun y => codeUnitCompare (updatedAt y) day4 < 0)
            ([weekly; release] ++ english :: [])
  /\ Forall (fun y => id y <> val "c") [weekly; release]
  /\ id english = val "c"
  /\ snd (updateTask codeUnitCompare day4 day4
            (formPayload (val "c") "english" "" "long_term" 40) shelf)
     = val release.
Proof.
  split; [exact codeUnitCompare_consistent|].
  split; [exact shelf_descending|]. split; [exact shelf_older|].
  split; [exact shelf_before_english|]. split; [reflexivity|].
  destruct (updateTask_returns_old_position codeUnitCompare day4 day4
              (formPayload (val "c") "english" "" "long_term" 40)
              [weekly; release] [] english codeUnitCompare_consistent
              shelf_descending shelf_older shelf_before_english eq_refl)
    as (_ & _ & Hprev).
  exact (Hprev [weekly] release eq_refl).
Defined.

(** X4.  [addTask] adds exactly one task, built from the payload with the
    generated id (an id in the payload is overwritten), and keeps every
    stored task.  With unshared ids and a new id the task is the one its id
    finds.  In a sorted store none of whose tasks is more recent than the
    new one, the new task is put first and is what the call returns. *)
Theorem addTask_adds_one
    (localeCompare : string -> string -> Z) (newId now1 now2 : string)
    (payload : Payload) (tasks : list Task) :
  let created := normalizeTask now1 now2 (withId payload newId) in
  id created = val newId
  /\ Permutation (fst (addTask localeCompare newId now1 now2 payload tasks))
                 (created :: tasks)
  /\ (NoDup (map id tasks) -> ~ In (val newId) (map id tasks) ->
      findTask (val newId)
        (fst (addTask localeCompare newId now1 now2 payload tasks))
      = Some created)
  /\ (descending localeCompare tasks ->
      Forall (fun y => localeCompare (updatedAt y) (updatedAt created) <= 0)
             tasks ->
      addTask localeCompare newId now1 now2 payload tasks
      = (created :: tasks, val created)).
Proof.
  intro created. split; [reflexivity|]. split; [apply sortTasks_perm|]. split.
  - intros Hn Hfresh. unfold addTask. cbn [fst].
    rewrite (findTask_perm (val newId) (created :: tasks)).
    + unfold findTask. cbn [find]. unfold hasId at 1. cbn.
      now rewrite String.eqb_refl.
    + cbn [map]. now constructor.
    + apply Permutation_sym, sortTasks_perm.
  - intros Hs Hnew. unfold addTask.
    change (sortTasks localeCompare
              (normalizeTask now1 now2 (withId payload newId) :: tasks))
      with (insertTask localeCompare created (sortTasks localeCompare tasks)).
    rewrite (sortTasks_sorted localeCompare tasks Hs).
    rewrite insertTask_front; [reflexivity|exact Hnew].
Qed.

Lemma addTask_adds_one_witness :
  NoDup (map id shelf) /\ ~ In (val "n") (map id shelf)
  /\ findTask (val "n")
       (fst (addTask codeUnitCompare "n" day4 day4
               (formPayload (val "a") "new" "" "once" 2) shelf))
     = Some (mkTask (val "n") (val "new") "" (val "once") 0 2 null null null
                    "active" day4 day4).
Proof.
  assert (Hfresh : ~ In (val "n") (map id shelf))
    by (simpl; intuition discriminate).
  split; [exact shelf_ids|]. split; [exact Hfresh|].
  destruct (addTask_adds_one codeUnitCompare "n" day4 day4
              (formPayload (val "a") "new" "" "once" 2) shelf)
    as (_ & _ & Hfound & _).
  exact (Hfound shelf_ids Hfresh).
Defined.

(** ** Delete *)

Lemma filter_insertTask_dropped (localeCompare : string -> string -> Z)
    (f : Task -> bool) (x : Task) (l : list Task) :
  f x = false -> filter f (insertTask localeCompare x l) = filter f l.
Proof.
  intro Hx. induction l as [|y l IH]; cbn; [now rewrite Hx|].
  destruct (compareTasks localeCompare x y <=? 0); cbn.
  - now rewrite Hx.
  - now rewrite IH.
Qed.

Lemma filter_all {A : Type} (f : A -> bool) (l : list A) :
  Forall (fun x => f x = true) l -> filter f l = l.
Proof.
  induction 1 as [|x l Hx _ IH]; [reflexivity|].
  cbn. now rewrite Hx, IH.
Qed.

(** X5.  [deleteTask] removes every task with the given id, duplicates
    included, and nothing else: the id finds no task afterwards, every
    other id finds what it found before, and the tasks left are exactly the
    stored tasks with another id. *)
Theorem deleteTask_removes_id (i : js string) (tasks : list Task) :
  findTask i (fst (deleteTask i tasks)) = None
  /\ (forall j, j <> i ->
        findTask j (fst (deleteTask i tasks)) = findTask j tasks)
  /\ (forall t, In t (fst (deleteTask i tasks)) <-> In t tasks /\ id t <> i).
Proof.
  unfold deleteTask, findTask. cbn [fst]. split; [|split].
  - induction tasks as [|y l IH]; [reflexivity|]. cbn.
    destruct (strictEq (id y) i) eqn:E; cbn; [exact IH|].
    unfold hasId at 1. now rewrite E.
  - intros j Hj. induction tasks as [|y l IH]; [reflexivity|]. cbn.
    destruct (strictEq (id y) i) eqn:E; cbn.
    + apply strictEq_true in E.
      destruct (hasId j y) eqn:Ej; [|exact IH].
      apply hasId_id in Ej. congruence.
    + now rewrite IH.
  - intro t. rewrite filter_In. split; intros [Hin Hid]; split; auto.
    + intro E. apply strictEq_true in E. now rewrite E in Hid.
    + destruct (strictEq (id t) i) eqn:E; [|reflexivity].
      apply strictEq_true in E. contradiction.
Qed.

(** X6.  Creating a task and deleting it again gives the store back: in a
    sorted store that does not hold the generated id, [deleteTask] of that
    id after [addTask] leaves exactly the tasks there were, in their
    order. *)
Theorem add_then_delete
    (localeCompare : string -> string -> Z) (newId now1 now2 : string)
    (payload : Payload) (tasks : list Task) :
  descending localeCompare tasks ->
  ~ In (val newId) (map id tasks) ->
  fst (deleteTask (val newId)
         (fst (addTask localeCompare newId now1 now2 payload tasks)))
  = tasks.
Proof.
  intros Hs Hfresh. unfold deleteTask, addTask. cbn [fst].
  change (sortTasks localeCompare
            (normalizeTask now1 now2 (withId payload newId) :: tasks))
    with (insertTask localeCompare
            (normalizeTask now1 now2 (withId payload newId))
            (sortTasks localeCompare tasks)).
  rewrite (sortTasks_sorted localeCompare tasks Hs).
  rewrite filter_insertTask_dropped
    by (cbn; now rewrite String.eqb_refl).
  apply filter_all. apply Forall_forall. intros t Ht.
  destruct (strictEq (id t) (val newId)) eqn:E; [|reflexivity].
  apply strictEq_true in E. exfalso. apply Hfresh. rewrite <- E.
  now apply in_map.
Qed.

Lemma add_then_delete_witness :
  descending codeUnitCompare shelf
  /\ ~ In (val "n") (map id shelf)
  /\ fst (deleteTask (val "n")
            (fst (addTask codeUnitCompare "n" day2 day2
                    (formPayload null "new" "" "once" 2) shelf)))
     = shelf.
Proof.
  assert (Hfresh : ~ In (val "n") (map id shelf))
    by (simpl; intuition discriminate).
  split; [exact shelf_descending|]. split; [exact Hfresh|].
  exact (add_then_delete codeUnitCompare "n" day2 day2
           (formPayload null "new" "" "once" 2) shelf shelf_descending
           Hfresh).
Defined.

(** ** Increase, step after step *)

Lemma increased_status (fl : Q -> Q) (now : string) (t : Task) :
  status (increased fl now t)
  = if numLe (target t) (fl (progress t + 1)%Q)
       && negb (String.eqb (status t) "archived")
    then "completed" else status t.
Proof.
  unfold increased. cbn.
  now destruct (numLe (target t) (fl (progress t + 1)%Q)
                && negb (String.eqb (status t) "archived")).
Qed.

Lemma increase_step (localeCompare : string -> string -> Z) (fl : Q -> Q)
    (now : string) (i : js string) (tasks : list Task) (task : Task) :
  NoDup (map id tasks) -> findTask i tasks = Some task ->
  NoDup (map id (fst (increaseProgress localeCompare fl now i tasks)))
  /\ findTask i (fst (increaseProgress localeCompare fl now i tasks))
     = Some (if numLt (progress task) (target task) then increased fl now task
             else task).
Proof.
  intros Hn Hf. split.
  - apply (exec_ids_unique localeCompare fl (IncreaseProgress now i) tasks I
             Hn).
  - unfold increaseProgress. rewrite Hf.
    destruct (numLt (progress task) (target task)); cbn [fst]; [|exact Hf].
    apply mutated_found; auto using increased_id.
Qed.

(** X7.  For a task whose progress [p] and target [t] are whole numbers
    that doubles count one by one (between -2^53 and 2^53), with [p <= t]
    and ids unshared: increase-progress called [n] times in a row leaves it
    with progress [min (p + n, t)] and the same target.  An archived task
    stays archived; any other task below its target is ["completed"] once
    the calls reach the target and keeps its status while they do not; a
    task already at its target is left as it is. *)
Theorem increases_reach_target
    (localeCompare : string -> string -> Z) (fl : Q -> Q)
    (nows : list string) (i : js string) (tasks : list Task) (task : Task)
    (p t : Z) :
  monotone fl -> exactOnCounts fl ->
  NoDup (map id tasks) ->
  findTask i tasks = Some task ->
  (progress task == inject_Z p)%Q ->
  (target task == inject_Z t)%Q ->
  - 2 ^ 53 <= p -> p <= t -> t <= 2 ^ 53 ->
  exists task',
    findTask i
      (run localeCompare fl
         (map (fun now => IncreaseProgress now i) nows) tasks)
    = Some task'
    /\ (progress task'
        == inject_Z (Z.min (p + Z.of_nat (List.length nows)) t))%Q
    /\ target task' = target task
    /\ (p = t -> task' = task)
    /\ (status task = "archived" -> status task' = "archived")
    /\ (status task <> "archived" -> p < t ->
        t <= p + Z.of_nat (List.length nows) ->
        status task' = "completed")
    /\ (p + Z.of_nat (List.length nows) < t ->
        status task' = status task).
Proof.
  intros Hm He Hn Hf Hp Ht Hlow Hle Hhigh.
  revert tasks task p Hn Hf Hp Ht Hlow Hle.
  induction nows as [|now nows IH]; intros tasks task p Hn Hf Hp Ht Hlow Hle.
  - exists task. cbn [map run fold_left List.length].
    split; [exact Hf|]. split; [rewrite Z.add_0_r, Z.min_l by lia; exact Hp|].
    repeat split; auto; lia.
  - cbn [map run fold_left exec].
    destruct (increase_step localeCompare fl now i tasks task Hn Hf)
      as [Hn' Hf'].
    pose proof (whole_lt _ _ _ _ Hp Ht) as Hlt.
    destruct (numLt (progress task) (target task)) eqn:E.
    + apply numLt_true, Hlt in E.
      destruct (increased_progress fl now task) as [Ep Et].
      pose proof (increased_status fl now task) as Es.
      assert (Hsum : (fl (progress task + 1) == inject_Z (p + 1))%Q)
        by (apply exact_plus_one; auto; lia).
      assert (Hp' : (progress (increased fl now task) == inject_Z (p + 1))%Q)
        by (rewrite Ep; exact Hsum).
      assert (Ht' : (target (increased fl now task) == inject_Z t)%Q)
        by (rewrite Et; exact Ht).
      pose proof (whole_le _ _ _ _ Ht Hsum) as Hreached.
      destruct (IH _ (increased fl now task) (p + 1) Hn' Hf' Hp' Ht') as
        (task' & Hfind & Hprog & Htarget & Hsame & Harch & Hdone & Hkeep);
        [lia|lia|].
      exists task'. cbn [List.length]. rewrite Nat2Z.inj_succ.
      split; [exact Hfind|].
      split; [rewrite Hprog;
              now replace (Z.min (p + 1 + Z.of_nat (List.length nows)) t)
                with (Z.min (p + Z.succ (Z.of_nat (List.length nows))) t)
                by lia|].
      split; [now rewrite Htarget|]. split; [lia|]. split; [|split].
      * intro Ha. apply Harch. rewrite Es, Ha. cbn.
        now rewrite andb_false_r.
      * intros Hna _ Hreach.
        assert (Hneq : String.eqb (status task) "archived" = false)
          by now apply String.eqb_neq.
        destruct (Z.le_gt_cases t (p + 1)) as [Hc|Hc].
        -- rewrite (Hsame ltac:(lia)), Es, Hneq.
           apply Hreached, numLe_true in Hc. now rewrite Hc.
        -- assert (Hc' : numLe (target task) (fl (progress task + 1)%Q)
                         = false).
           { apply numLe_false. apply Qnot_le_lt. intro H.
             apply Hreached in H. lia. }
           apply Hdone; [|lia|lia].
           rewrite Es, Hneq, Hc'. cbn. exact Hna.
      * intro Hshort. rewrite (Hkeep ltac:(lia)), Es.
        assert (Hc' : numLe (target task) (fl (progress task + 1)%Q)
                      = false).
        { apply numLe_false. apply Qnot_le_lt. intro H.
          apply Hreached in H. lia. }
        now rewrite Hc'.
    + assert (Hge : t <= p).
      { apply numLt_false in E. now apply (whole_le _ _ _ _ Ht Hp). }
      destruct (IH _ task p Hn' Hf' Hp Ht Hlow Hle) as
        (task' & Hfind & Hprog & Htarget & Hsame & Harch & Hdone & Hkeep).
      exists task'. cbn [List.length]. rewrite Nat2Z.inj_succ.
      split; [exact Hfind|].
      split; [rewrite Hprog;
              now replace (Z.min (p + Z.succ (Z.of_nat (List.length nows))) t)
                with (Z.min (p + Z.of_nat (List.length nows)) t)
                by lia|].
      split; [exact Htarget|]. split; [exact Hsame|]. split; [exact Harch|].
      split; intros; lia.
Qed.

(** Four calls take the task at 5 of 8 to 8 of 8, completed. *)
Lemma increases_reach_target_witness :
  monotone noRounding /\ exactOnCounts noRounding
  /\ NoDup (map id [chapters])
  /\ findTask (val "e") [chapters] = Some chapters
  /\ (progress chapters == inject_Z 5)%Q
  /\ (target chapters == inject_Z 8)%Q
  /\ - 2 ^ 53 <= 5 /\ 5 <= 8 /\ 8 <= 2 ^ 53
  /\ exists task',
       findTask (val "e")
         (run codeUnitCompare noRounding
            (map (fun now => IncreaseProgress now (val "e"))
               [day2; day3; day4; day5]) [chapters])
       = Some task'
       /\ (progress task' == 8)%Q /\ status task' = "completed".
Proof.
  assert (Hn : NoDup (map id [chapters]))
    by (repeat constructor; simpl; tauto).
  split; [exact noRounding_monotone|]. split; [exact noRounding_exact|].
  split; [exact Hn|]. split; [reflexivity|].
  split; [reflexivity|]. split; [reflexivity|].
  split; [lia|]. split; [lia|]. split; [lia|].
  destruct (increases_reach_target codeUnitCompare noRounding
              [day2; day3; day4; day5] (val "e") [chapters] chapters 5 8
              noRounding_monotone noRounding_exact Hn eq_refl)
    as (task' & Hfind & Hp & _ & _ & _ & Hdone & _);
    [reflexivity|reflexivity|lia|lia|lia|].
  exists task'. split; [exact Hfind|]. split; [exact Hp|].
  apply Hdone; [discriminate|lia|cbn; lia].
Defined.

(** ** Archive, then reopen *)

Lemma run_app (localeCompare : string -> string -> Z) (fl : Q -> Q)
    (cs1 cs2 : list Command) (tasks : list Task) :
  run localeCompare fl (cs1 ++ cs2) tasks
  = run localeCompare fl cs2 (run localeCompare fl cs1 tasks).
Proof. unfold run. apply fold_left_app. Qed.

Lemma increases_at_target (localeCompare : string -> string -> Z) (fl : Q -> Q)
    (nows : list string) (i : js string) (tasks : list Task) (task : Task) :
  findTask i tasks = Some task -> (target task <= progress task)%Q ->
  run localeCompare fl (map (fun now => IncreaseProgress now i) nows) tasks
  = tasks.
Proof.
  intros Hf Hle. induction nows as [|now nows IH]; [reflexivity|].
  cbn [map run fold_left exec].
  rewrite (increaseProgress_at_target localeCompare fl now i tasks task Hf Hle).
  exact IH.
Qed.

(** X8.  Archive followed by reopen (ids unshared) brings a task back with
    every field as it was except that its status is ["active"], its update
    time is that of the reopen, and, for kind ["cycle"], its progress is 0.
    A task of another kind that had reached its target therefore comes
    back ["active"] at its target, and no number of increase-progress
    calls makes it ["completed"] again. *)
Theorem archive_then_reopen
    (localeCompare : string -> string -> Z) (fl : Q -> Q) (now1 now2 : string)
    (i : js string) (tasks : list Task) (task : Task) :
  NoDup (map id tasks) ->
  findTask i tasks = Some task ->
  let back :=
    set_updatedAt
      (set_status (if strictEq (type task) (val "cycle")
                   then set_progress task 0 else task) "active") now2 in
  findTask i (run localeCompare fl [Archive now1 i; Reopen now2 i] tasks)
  = Some back
  /\ (type task <> val "cycle" -> (target task <= progress task)%Q ->
      forall nows,
        findTask i
          (run localeCompare fl
             ([Archive now1 i; Reopen now2 i]
              ++ map (fun now => IncreaseProgress now i) nows) tasks)
        = Some back
        /\ status back = "active" /\ progress back = progress task).
Proof.
  intros Hn Hf back.
  assert (Hn1 : NoDup (map id (fst (archiveTask localeCompare now1 i tasks))))
    by apply (exec_ids_unique localeCompare fl (Archive now1 i) tasks I Hn).
  assert (Hf1 : findTask i (fst (archiveTask localeCompare now1 i tasks))
                = Some (archived now1 task)).
  { unfold archiveTask. rewrite Hf. cbn [fst].
    apply mutated_found; auto using archived_id. }
  assert (Hback : reopened now2 (archived now1 task) = back).
  { unfold back, reopened, archived. cbn.
    now destruct (strictEq (type task) (val "cycle")). }
  assert (Hf2 : findTask i
                  (run localeCompare fl [Archive now1 i; Reopen now2 i] tasks)
                = Some back).
  { cbn [run fold_left exec]. rewrite <- Hback.
    unfold reopenTask at 1. rewrite Hf1. cbn [fst].
    apply mutated_found; auto using reopened_id. }
  split; [exact Hf2|].
  intros Hk Hle nows.
  assert (Hnc : strictEq (type task) (val "cycle") = false).
  { destruct (strictEq (type task) (val "cycle")) eqn:E; [|reflexivity].
    apply strictEq_true in E. contradiction. }
  assert (Hp : progress back = progress task /\ target back = target task
               /\ status back = "active")
    by (unfold back; rewrite Hnc; now cbn).
  rewrite run_app.
  rewrite (increases_at_target localeCompare fl nows i _ back Hf2)
    by (destruct Hp as (-> & -> & _); exact Hle).
  split; [exact Hf2|]. tauto.
Qed.

Lemma archive_then_reopen_witness :
  NoDup (map id shelf)
  /\ findTask (val "b") shelf = Some release
  /\ findTask (val "b")
       (run codeUnitCompare noRounding
          ([Archive day4 (val "b"); Reopen day5 (val "b")]
           ++ map (fun now => IncreaseProgress now (val "b")) [day5; day5])
          shelf)
     = Some (sample "b" "once" 1 1 "active" day5).
Proof.
  split; [exact shelf_ids|]. split; [reflexivity|].
  destruct (archive_then_reopen codeUnitCompare noRounding day4 day5 (val "b")
              shelf release shelf_ids eq_refl) as (_ & Hstuck).
  apply Hstuck; [discriminate|vm_compute; discriminate].
Defined.

(** ** Invariants of the stores the panel builds *)

Section PanelInvariant.

Variable localeCompare : string -> string -> Z.
Variable fl : Q -> Q.

(** A property of tasks that the assignments of the composable keep and
    that the records built from the dialog's payload have. *)
Variable P : Task -> Prop.
Hypothesis P_increased : forall now t, P t -> P (increased fl now t).
Hypothesis P_archived : forall now t, P t -> P (archived now t).
Hypothesis P_reopened : forall now t, P t -> P (reopened now t).
Hypothesis P_created :
  forall newId now1 now2 i nm ds ty tg, (0 < tg)%Q ->
    P (normalizeTask now1 now2 (withId (formPayload i nm ds ty tg) newId)).
Hypothesis P_edited :
  forall now now1 i nm ds ty tg t, (0 < tg)%Q -> P t ->
    P (edited now now1 (formPayload i nm ds ty tg) (toObject t)).

Lemma exec_panel_invariant (c : Command) (tasks : list Task) :
  fromPanel c -> Forall P tasks ->
  Forall P (fst (exec localeCompare fl c tasks)).
Proof.
  intros Hc Hall.
  assert (Hin : forall p x, find p tasks = Some x -> P x).
  { intros p x Hx. apply find_some in Hx.
    rewrite Forall_forall in Hall. apply Hall. tauto. }
  destruct c as [newId now1 now2 payload|now now1 payload|i|now i|now i|now i];
    cbn [exec].
  - destruct Hc as (i & nm & ds & ty & tg & -> & Htg).
    unfold addTask. cbn [fst]. apply sortTasks_Forall.
    constructor; [now apply P_created|exact Hall].
  - destruct Hc as (i & nm & ds & ty & tg & -> & Htg).
    destruct (findTask (get (p_id (formPayload i nm ds ty tg))) tasks)
      as [task|] eqn:Hf.
    + destruct (updateTask_found localeCompare now now1 _ tasks task Hf)
        as [-> _].
      apply sortTasks_Forall, mutateFound_Forall; [exact Hall|].
      intros x _. apply P_edited; [exact Htg|]. exact (Hin _ _ Hf).
    + now rewrite updateTask_absent.
  - unfold deleteTask. cbn [fst]. now apply Forall_filter_keep.
  - unfold increaseProgress.
    destruct (findTask i tasks) as [task|] eqn:Hf; [|exact Hall].
    destruct (numLt (progress task) (target task)); [|exact Hall].
    cbn [fst]. apply sortTasks_Forall, mutateFound_Forall; [exact Hall|].
    intros x Hx. apply P_increased. exact (Hin _ _ Hx).
  - unfold archiveTask.
    destruct (findTask i tasks) as [task|] eqn:Hf; [|exact Hall].
    cbn [fst]. apply sortTasks_Forall, mutateFound_Forall; [exact Hall|].
    intros x Hx. apply P_archived. exact (Hin _ _ Hx).
  - unfold reopenTask.
    destruct (findTask i tasks) as [task|] eqn:Hf; [|exact Hall].
    cbn [fst]. apply sortTasks_Forall, mutateFound_Forall; [exact Hall|].
    intros x Hx. apply P_reopened. exact (Hin _ _ Hx).
Qed.

Lemma run_panel_invariant (cs : list Command) (tasks : list Task) :
  Forall fromPanel cs -> Forall P tasks ->
  Forall P (run localeCompare fl cs tasks).
Proof.
  revert tasks. induction cs as [|c cs IH]; intros tasks Hcs Hall;
    [exact Hall|].
  inversion Hcs as [|? ? Hc Hcs']; subst.
  apply IH; [exact Hcs'|]. now apply exec_panel_invariant.
Qed.

End PanelInvariant.

Lemma session_fromPanel : Forall fromPanel session.
Proof.
  unfold session. repeat constructor; cbn.
  - exists null, "weekly report", "", "cycle", 2%Q.
    split; reflexivity.
  - exists null, "release", "", "once", 1%Q.
    split; reflexivity.
Qed.

Lemma seeded_store (localeCompare : string -> string -> Z)
    (P : Task -> Prop) (stamp : nat -> Stamp) :
  Forall P (seedTasks stamp 0 fallbackSeeds) ->
  Forall P (fst (refreshTasks localeCompare stamp false [])).
Proof.
  intro H. unfold refreshTasks. cbn [negb andb List.length Nat.eqb fst].
  now apply sortTasks_Forall.
Qed.

(** X9.  Along every run of commands issued by the panel, from the seeded
    store or from any store where it holds, the status of every task is one
    of ["active"], ["completed"] and ["archived"]. *)
Theorem panel_statuses_known
    (localeCompare : string -> string -> Z) (fl : Q -> Q)
    (cs : list Command) :
  Forall fromPanel cs ->
  (forall tasks, Forall knownStatus tasks ->
     Forall knownStatus (run localeCompare fl cs tasks))
  /\ (forall stamp,
        Forall knownStatus
          (run localeCompare fl cs
             (fst (refreshTasks localeCompare stamp false [])))).
Proof.
  intro Hcs.
  assert (Hrun : forall tasks, Forall knownStatus tasks ->
                   Forall knownStatus (run localeCompare fl cs tasks)).
  { intros tasks Hall.
    apply (run_panel_invariant localeCompare fl knownStatus);
      try assumption; unfold knownStatus.
    - intros now t H. rewrite increased_status.
      destruct (numLe (target t) (fl (progress t + 1)%Q)
                && negb (String.eqb (status t) "archived")); tauto.
    - intros now t _. cbn. tauto.
    - intros now t _. unfold reopened. cbn.
      destruct (strictEq (type t) (val "cycle")); cbn; tauto.
    - intros. cbn. tauto.
    - intros now now1 i nm ds ty tg t _ H. cbn. exact H. }
  split; [exact Hrun|].
  intro stamp. apply Hrun, seeded_store.
  repeat constructor; unfold knownStatus; cbn; tauto.
Qed.

Lemma shelf_known : Forall knownStatus shelf.
Proof.
  unfold shelf, knownStatus.
  constructor; [right; right; reflexivity|].
  constructor; [right; right; reflexivity|].
  constructor; [right; left; reflexivity|constructor].
Qed.

Lemma panel_statuses_witness :
  Forall fromPanel session
  /\ Forall knownStatus (run codeUnitCompare noRounding session shelf).
Proof.
  split; [exact session_fromPanel|].
  exact (proj1 (panel_statuses_known codeUnitCompare noRounding session
                  session_fromPanel) shelf shelf_known).
Defined.

(** X10.  In local mode the repeat rule and the dates chosen in the dialog
    are never stored: along every run of commands issued by the panel, from
    the seeded store or from any store where it holds, every task has
    [repeatRule], [startDate] and [endDate] equal to [null]. *)
Theorem panel_tasks_unscheduled
    (localeCompare : string -> string -> Z) (fl : Q -> Q)
    (cs : list Command) :
  Forall fromPanel cs ->
  (forall tasks, Forall unscheduled tasks ->
     Forall unscheduled (run localeCompare fl cs tasks))
  /\ (forall stamp,
        Forall unscheduled
          (run localeCompare fl cs
             (fst (refreshTasks localeCompare stamp false [])))).
Proof.
  intro Hcs.
  assert (Hrun : forall tasks, Forall unscheduled tasks ->
                   Forall unscheduled (run localeCompare fl cs tasks)).
  { intros tasks Hall.
    apply (run_panel_invariant localeCompare fl unscheduled);
      try assumption; unfold unscheduled.
    - intros now t H. unfold increased. cbn.
      destruct (numLe (target t) (fl (progress t + 1)%Q)
                && negb (String.eqb (status t) "archived")); exact H.
    - intros now t H. exact H.
    - intros now t H. unfold reopened. cbn.
      destruct (strictEq (type t) (val "cycle")); exact H.
    - intros. cbn. tauto.
    - intros now now1 i nm ds ty tg t _ (H1 & H2 & H3). cbn.
      now rewrite H1, H2, H3. }
  split; [exact Hrun|].
  intro stamp. apply Hrun, seeded_store.
  repeat constructor.
Qed.

Lemma panel_tasks_unscheduled_witness :
  Forall fromPanel session
  /\ Forall unscheduled (run codeUnitCompare noRounding session shelf).
Proof.
  split; [exact session_fromPanel|].
  refine (proj1 (panel_tasks_unscheduled codeUnitCompare noRounding session
                   session_fromPanel) shelf _).
  unfold shelf. repeat constructor.
Defined.

(** ** The computed lists and the statistics *)

Lemma status_lists (x : Task) (l : list Task) (s : string) :
  filter (fun task => String.eqb (status task) s) (x :: l)
  = if String.eqb (status x) s
    then x :: filter (fun task => String.eqb (status task) s) l
    else filter (fun task => String.eqb (status task) s) l.
Proof. reflexivity. Qed.

Lemma lists_cover (tasks : list Task) :
  Forall knownStatus tasks ->
  Permutation tasks
    (activeTasks tasks ++ completedTasks tasks ++ archivedTasks tasks).
Proof.
  unfold activeTasks, completedTasks, archivedTasks.
  induction 1 as [|x l Hx _ IH]; [constructor|].
  rewrite !status_lists.
  destruct Hx as [E|[E|E]]; rewrite E; cbn [String.eqb Ascii.eqb Bool.eqb].
  - cbn. now apply perm_skip.
  - cbn. now apply Permutation_cons_app.
  - cbn. rewrite app_assoc. apply Permutation_cons_app.
    now rewrite <- app_assoc.
Qed.

(** X11.  No task is in two of the lists [activeTasks], [completedTasks]
    and [archivedTasks]; a task whose status is none of the three is in
    none of them; and when every status is one of the three, the lists
    together hold every task exactly once. *)
Theorem computed_lists_partition (tasks : list Task) :
  (forall t, ~ (In t (activeTasks tasks) /\ In t (completedTasks tasks)))
  /\ (forall t, ~ (In t (activeTasks tasks) /\ In t (archivedTasks tasks)))
  /\ (forall t, ~ (In t (completedTasks tasks) /\ In t (archivedTasks tasks)))
  /\ (forall t, ~ knownStatus t ->
        ~ In t (activeTasks tasks ++ completedTasks tasks
                ++ archivedTasks tasks))
  /\ (Forall knownStatus tasks ->
      Permutation tasks
        (activeTasks tasks ++ completedTasks tasks ++ archivedTasks tasks)).
Proof.
  unfold activeTasks, completedTasks, archivedTasks.
  split; [|split; [|split; [|split]]].
  - intros t [H1 H2]. apply filter_In in H1, H2.
    destruct H1 as [_ H1], H2 as [_ H2].
    apply String.eqb_eq in H1, H2. congruence.
  - intros t [H1 H2]. apply filter_In in H1, H2.
    destruct H1 as [_ H1], H2 as [_ H2].
    apply String.eqb_eq in H1, H2. congruence.
  - intros t [H1 H2]. apply filter_In in H1, H2.
    destruct H1 as [_ H1], H2 as [_ H2].
    apply String.eqb_eq in H1, H2. congruence.
  - intros t Hk Hin. apply Hk. unfold knownStatus.
    rewrite !in_app_iff, !filter_In in Hin.
    destruct Hin as [[_ H]|[[_ H]|[_ H]]]; apply String.eqb_eq in H; tauto.
  - apply lists_cover.
Qed.

Section StatsFacts.

Variable fl : Q -> Q.
Hypothesis fl_rounding : roundingOfCounts fl.

Lemma fl_mono (x y : Q) : (x <= y)%Q -> (fl x <= fl y)%Q.
Proof. apply (proj1 fl_rounding). Qed.

Lemma fl_eq (x y : Q) : (x == y)%Q -> (fl x == fl y)%Q.
Proof.
  intro E. apply Qle_antisym; apply fl_mono; rewrite E; apply Qle_refl.
Qed.

Lemma Math_round_mono (x y : Q) :
  (x <= y)%Q -> TaskCard.Math_round x <= TaskCard.Math_round y.
Proof.
  intro H. unfold TaskCard.Math_round. apply Qfloor_resp_le.
  now apply Qplus_le_l.
Qed.

Lemma Math_round_eq (x y : Q) :
  (x == y)%Q -> TaskCard.Math_round x = TaskCard.Math_round y.
Proof.
  intro E. unfold TaskCard.Math_round. apply Qfloor_comp. now rewrite E.
Qed.

(** The rate of [c] out of [t], as [stats] computes it. *)
Lemma rate_range (c t : Z) :
  0 <= c <= t -> 0 < t ->
  0 <= TaskCard.Math_round
         (fl (fl (inject_Z c / inject_Z t) * inject_Z 100))%Q <= 100.
Proof.
  intros Hc Ht. destruct fl_rounding as (_ & H0 & H1 & H100). split.
  - apply TaskCardFacts.Math_round_nonneg.
    rewrite <- H0. apply fl_mono.
    apply Qmult_le_0_compat; [|discriminate].
    rewrite <- H0. apply fl_mono.
    apply TaskCardFacts.quotient_nonneg; lia.
  - change 100 with (TaskCard.Math_round (inject_Z 100)).
    apply Math_round_mono.
    apply Qle_trans with (fl (inject_Z 100));
      [|rewrite H100; apply Qle_refl].
    apply fl_mono.
    apply Qle_trans with (1 * inject_Z 100)%Q;
      [|rewrite Qmult_1_l; apply Qle_refl].
    apply Qmult_le_compat_r; [|discriminate].
    apply Qle_trans with (fl 1); [|rewrite H1; apply Qle_refl].
    apply fl_mono.
    apply Qle_shift_div_r.
    + change 0%Q with (inject_Z 0). rewrite <- Zlt_Qlt. exact Ht.
    + rewrite Qmult_1_l. rewrite <- Zle_Qle. lia.
Qed.

Lemma rate_all (t : Z) :
  0 < t ->
  TaskCard.Math_round (fl (fl (inject_Z t / inject_Z t) * inject_Z 100))%Q
  = 100.
Proof.
  intro Ht. destruct fl_rounding as (_ & _ & H1 & H100).
  change 100 with (TaskCard.Math_round (inject_Z 100)) at 2.
  apply Math_round_eq.
  apply Qeq_trans with (fl (inject_Z 100)); [|exact H100].
  apply fl_eq.
  assert (E : (fl (inject_Z t / inject_Z t) == 1)%Q).
  { apply Qeq_trans with (fl 1); [|exact H1].
    apply fl_eq. apply Qmult_inv_r.
    intro E. unfold Qeq in E. simpl in E. lia. }
  rewrite E. ring.
Qed.

Lemma rate_none (t : Z) :
  TaskCard.Math_round (fl (fl (inject_Z 0 / inject_Z t) * inject_Z 100))%Q
  = 0.
Proof.
  destruct fl_rounding as (_ & H0 & _).
  change 0 with (TaskCard.Math_round 0) at 2.
  apply Math_round_eq.
  apply Qeq_trans with (fl 0); [|exact H0].
  apply fl_eq.
  assert (E : (fl (inject_Z 0 / inject_Z t) == 0)%Q).
  { apply Qeq_trans with (fl 0); [|exact H0].
    apply fl_eq. unfold Qdiv. ring. }
  rewrite E. ring.
Qed.

End StatsFacts.

(** X12.  The completion rate of [stats] is 0 when no task is active or
    completed, and otherwise the rounded share of completed tasks among the
    active and completed ones: it lies between 0 and 100, is 0 when no task
    is completed and 100 when none is active and some are completed.
    Archived tasks do not enter it.  When every status is one of the three,
    the three counts add up to the number of tasks. *)
Theorem stats_rate_and_counts (fl : Q -> Q) (tasks : list Task) :
  roundingOfCounts fl ->
  0 <= completionRate (stats fl tasks) <= 100
  /\ (active (stats fl tasks) + completed (stats fl tasks) = 0 ->
      completionRate (stats fl tasks) = 0)
  /\ (completed (stats fl tasks) = 0 -> completionRate (stats fl tasks) = 0)
  /\ (active (stats fl tasks) = 0 -> 0 < completed (stats fl tasks) ->
      completionRate (stats fl tasks) = 100)
  /\ (forall archivedOnes,
        Forall (fun t => status t = "archived") archivedOnes ->
        completionRate (stats fl (archivedOnes ++ tasks))
        = completionRate (stats fl tasks))
  /\ (Forall knownStatus tasks ->
      active (stats fl tasks) + completed (stats fl tasks)
      + archivedCount (stats fl tasks)
      = Z.of_nat (List.length tasks)).
Proof.
  intro Hr. unfold stats. cbn [active completed archivedCount completionRate].
  set (a := Z.of_nat (List.length (activeTasks tasks))).
  set (c := Z.of_nat (List.length (completedTasks tasks))).
  assert (Ha : 0 <= a) by apply Nat2Z.is_nonneg.
  assert (Hc : 0 <= c) by apply Nat2Z.is_nonneg.
  split; [|split; [|split; [|split; [|split]]]].
  - destruct (a + c =? 0) eqn:E; [lia|].
    apply Z.eqb_neq in E. apply rate_range; [exact Hr|lia|lia].
  - intro H. apply Z.eqb_eq in H. now rewrite H.
  - intro H. rewrite H. destruct (a + 0 =? 0); [reflexivity|].
    now apply rate_none.
  - intros H0 Hpos. rewrite H0. cbn [Z.add].
    destruct (c =? 0) eqn:E; [apply Z.eqb_eq in E; lia|].
    now apply rate_all.
  - intros archivedOnes Harch.
    assert (Hnone : forall s, s <> "archived" ->
              filter (fun task => String.eqb (status task) s)
                     (archivedOnes ++ tasks)
              = filter (fun task => String.eqb (status task) s) tasks).
    { intros s Hs. rewrite filter_app.
      replace (filter (fun task => String.eqb (status task) s) archivedOnes)
        with (@nil Task); [reflexivity|].
      induction Harch as [|x l Hx _ IH]; [reflexivity|].
      cbn. rewrite Hx. apply not_eq_sym in Hs.
      apply String.eqb_neq in Hs. now rewrite Hs. }
    unfold activeTasks, completedTasks.
    rewrite !Hnone by discriminate. reflexivity.
  - intro Hk. pose proof (lists_cover tasks Hk) as Hp.
    apply Permutation_length in Hp. rewrite !length_app in Hp.
    fold a c. lia.
Qed.

Lemma exact_counts : roundingOfCounts (fun x => x).
Proof.
  split; [intros x y H; exact H|]. repeat split; reflexivity.
Qed.

Lemma stats_witness :
  roundingOfCounts (fun x => x)
  /\ stats (fun x => x) shelf = mkStats 0 1 2 100.
Proof.
  split; [exact exact_counts|].
  destruct (stats_rate_and_counts (fun x => x) shelf exact_counts)
    as (_ & _ & _ & Hall & _).
  assert (E : completionRate (stats (fun x => x) shelf) = 100)
    by (apply Hall; reflexivity).
  unfold stats in *. cbn [completionRate] in E. rewrite E. reflexivity.
Defined.

(** ** Seeding and import *)

(** X13.  [refreshTasks] in local mode seeds the store once: it changes
    nothing when the store was loaded before or holds a task, so a store
    emptied by deletions is not seeded again, and calling it twice is
    calling it once.  On a fresh empty store it puts in the three seeds,
    each active with progress 0 and without repeat rule or dates, and marks
    the store loaded; with a consistent comparison the seeded store is
    sorted, latest update first. *)
Theorem refreshTasks_seeds_once
    (localeCompare : string -> string -> Z) (stamp stamp' : nat -> Stamp)
    (loaded : bool) (tasks : list Task) :
  refreshTasks localeCompare stamp'
    (snd (refreshTasks localeCompare stamp loaded tasks))
    (fst (refreshTasks localeCompare stamp loaded tasks))
  = refreshTasks localeCompare stamp loaded tasks
  /\ (loaded = true \/ tasks <> [] ->
      refreshTasks localeCompare stamp loaded tasks = (tasks, loaded))
  /\ refreshTasks localeCompare stamp true [] = ([], true)
  /\ snd (refreshTasks localeCompare stamp false []) = true
  /\ Permutation (fst (refreshTasks localeCompare stamp false []))
                 (seedTasks stamp 0 fallbackSeeds)
  /\ List.length (fst (refreshTasks localeCompare stamp false [])) = 3%nat
  /\ Forall (fun t => status t = "active" /\ progress t = 0%Q
                      /\ unscheduled t
                      /\ exists k, id t = val (newId (stamp k)))
            (fst (refreshTasks localeCompare stamp false []))
  /\ (consistent localeCompare ->
      descending localeCompare
        (fst (refreshTasks localeCompare stamp false []))).
Proof.
  split; [|split; [|split; [|split; [|split; [|split; [|split]]]]]].
  - unfold refreshTasks.
    destruct loaded; cbn [negb andb]; [reflexivity|].
    destruct tasks as [|t tasks]; cbn [List.length Nat.eqb fst snd negb andb];
      reflexivity.
  - intros [->|Hne]; unfold refreshTasks; [reflexivity|].
    destruct tasks; [contradiction|].
    cbn [List.length Nat.eqb]. now rewrite andb_false_r.
  - reflexivity.
  - reflexivity.
  - unfold refreshTasks. cbn [negb andb List.length Nat.eqb fst].
    apply sortTasks_perm.
  - unfold refreshTasks. cbn [negb andb List.length Nat.eqb fst].
    now rewrite sortTasks_length.
  - unfold refreshTasks. cbn [negb andb List.length Nat.eqb fst].
    apply sortTasks_Forall.
    repeat constructor; cbn; eauto.
  - intro Hc. unfold refreshTasks. cbn [negb andb List.length Nat.eqb fst].
    now apply sortTasks_descending.
Qed.

(** The seeds stamped at three different times come out latest first. *)
Lemma refreshTasks_seeds_witness :
  consistent codeUnitCompare
  /\ descending codeUnitCompare
       (fst (refreshTasks codeUnitCompare stampOf false []))
  /\ map updatedAt (fst (refreshTasks codeUnitCompare stampOf false []))
     = [day3; day2; day1].
Proof.
  split; [exact codeUnitCompare_consistent|]. split.
  - exact (proj2 (proj2 (proj2 (proj2 (proj2 (proj2 (proj2
             (refreshTasks_seeds_once codeUnitCompare stampOf stampOf
                false []))))))) codeUnitCompare_consistent).
  - vm_compute. reflexivity.
Defined.

Lemma addEach_perm (localeCompare : string -> string -> Z)
    (items : list (Stamp * Payload)) (tasks : list Task) :
  Permutation (addEach localeCompare items tasks)
    (map (fun it => normalizeTask (created (fst it)) (updated (fst it))
                      (withId (snd it) (newId (fst it)))) items
     ++ tasks).
Proof.
  revert tasks. induction items as [|[st item] items IH]; intro tasks;
    [apply Permutation_refl|].
  cbn [addEach map fst snd app].
  eapply perm_trans; [apply IH|].
  unfold addTask. cbn [fst].
  eapply perm_trans;
    [apply Permutation_app_head, sortTasks_perm|].
  apply Permutation_sym, Permutation_middle.
Qed.

(** X14.  [importTasks] adds one task per item, each built by
    [normalizeTask] from the item with a generated id, and keeps every
    stored task; the store grows by the number of items.  An empty list
    leaves the store as it is.  Nothing is checked on the way: an item's
    progress, target and status are stored as given. *)
Theorem importTasks_adds_all
    (localeCompare : string -> string -> Z)
    (items : list (Stamp * Payload)) (tasks : list Task) :
  Permutation (importTasks localeCompare items tasks)
    (map (fun it => normalizeTask (created (fst it)) (updated (fst it))
                      (withId (snd it) (newId (fst it)))) items
     ++ tasks)
  /\ List.length (importTasks localeCompare items tasks)
     = (List.length items + List.length tasks)%nat
  /\ importTasks localeCompare [] tasks = tasks
  /\ (forall st item p t s,
        In (st, item) items ->
        p_progress item = Some (val p) -> p_target item = Some (val t) ->
        p_status item = Some (val s) ->
        exists task, In task (importTasks localeCompare items tasks)
                     /\ id task = val (newId st)
                     /\ progress task = p /\ target task = t
                     /\ status task = s).
Proof.
  assert (Hp : Permutation (importTasks localeCompare items tasks)
    (map (fun it => normalizeTask (created (fst it)) (updated (fst it))
                      (withId (snd it) (newId (fst it)))) items
     ++ tasks)).
  { unfold importTasks. destruct items as [|it items];
      [apply Permutation_refl|].
    eapply perm_trans; [apply sortTasks_perm|apply addEach_perm]. }
  split; [exact Hp|]. split; [|split; [reflexivity|]].
  - rewrite (Permutation_length Hp), length_app, length_map. reflexivity.
  - intros st item p t s Hin Hpr Htg Hst.
    exists (normalizeTask (created st) (updated st) (withId item (newId st))).
    split.
    + eapply Permutation_in; [apply Permutation_sym, Hp|].
      apply in_or_app. left.
      apply (in_map (fun it => normalizeTask (created (fst it))
                                 (updated (fst it))
                                 (withId (snd it) (newId (fst it))))
               items (st, item) Hin).
    + cbn. rewrite Hpr, Htg, Hst. repeat split; reflexivity.
Qed.

(** ** [normalizeTask] *)

(** X15.  [normalizeTask] is idempotent: applied to the object it built it
    gives that object again, whatever the clock says then.  The object it
    builds never has [undefined] as repeat rule or date. *)
Theorem normalizeTask_idempotent
    (now1 now2 now3 now4 : string) (payload : Payload) :
  normalizeTask now3 now4 (toObject (normalizeTask now1 now2 payload))
  = normalizeTask now1 now2 payload
  /\ repeatRule (normalizeTask now1 now2 payload) <> undefined
  /\ startDate (normalizeTask now1 now2 payload) <> undefined
  /\ endDate (normalizeTask now1 now2 payload) <> undefined.
Proof.
  destruct payload as [pid pname pdesc ptype pprog ptarget prep pstart pend
                         pstatus pcreated pupdated].
  unfold normalizeTask, toObject. cbn.
  split; [|split; [|split]].
  - f_equal.
    + now destruct prep as [[| |?]|].
    + now destruct pstart as [[| |?]|].
    + now destruct pend as [[| |?]|].
  - now destruct prep as [[| |?]|].
  - now destruct pstart as [[| |?]|].
  - now destruct pend as [[| |?]|].
Qed.

(** ** The dialog *)

(** X16.  A payload leaves the dialog only when the form passes its
    validators.  It then carries the form's id, name, description, kind and
    target and none of the keys [progress], [status], [repeatRule],
    [startDate], [endDate]; a target that is a number is above 0 (the
    validator refuses [value <= 0] and nothing else) and a target is never
    [null]; a form of kind ["cycle"] has a repeat, and one of kind
    ["long_term"] a date range of two entries. *)
Theorem handleSave_emits_checked_payload
    (required : Dialog.Form -> bool) (form : Dialog.Form)
    (payload : Payload) :
  Dialog.handleSave required form = Some payload ->
  payload = Dialog.payloadOf form
  /\ required form = true
  /\ Dialog.f_target form <> null
  /\ (forall tg, Dialog.f_target form = val tg ->
        (0 < tg)%Q
        /\ payload = formPayload (Dialog.f_id form) (Dialog.f_name form)
                       (Dialog.f_description form) (Dialog.f_type form) tg)
  /\ (Dialog.f_type form = "cycle" -> Dialog.f_repeat form <> "")
  /\ (Dialog.f_type form = "long_term" ->
      exists a b, Dialog.f_dateRange form = val [a; b])
  /\ p_progress payload = None /\ p_status payload = None
  /\ p_repeatRule payload = None /\ p_startDate payload = None
  /\ p_endDate payload = None.
Proof.
  unfold Dialog.handleSave, Dialog.validate. intro H.
  destruct (required form) eqn:Hreq; [|discriminate].
  destruct (Dialog.targetAccepted (Dialog.f_target form)) eqn:Ht;
    [|discriminate].
  destruct (Dialog.repeatAccepted form) eqn:Hrep; [|discriminate].
  destruct (Dialog.dateRangeAccepted form) eqn:Hd; [|discriminate].
  cbn in H. injection H as <-.
  split; [reflexivity|]. split; [reflexivity|].
  split; [|split; [|split; [|split]]].
  - intro E. rewrite E in Ht. discriminate.
  - intros tg E. rewrite E in Ht. cbn in Ht.
    apply negb_true_iff, numLe_false in Ht. split; [exact Ht|].
    unfold Dialog.payloadOf, formPayload. now rewrite E.
  - intros Hk Hr. unfold Dialog.repeatAccepted in Hrep.
    rewrite Hk, Hr in Hrep. discriminate.
  - intro Hk. unfold Dialog.dateRangeAccepted in Hd. rewrite Hk in Hd.
    cbn in Hd. destruct (Dialog.f_dateRange form) as [| |range];
      try discriminate.
    destruct range as [|a [|b [|c range]]]; try discriminate.
    now exists a, b.
  - repeat split.
Qed.

Lemma handleSave_witness :
  Dialog.handleSave nameRequired
    (Dialog.mkForm null "report" "" "cycle" (val 3%Q) "weekly" (val []))
  = Some (formPayload null "report" "" "cycle" 3)
  /\ (0 < 3)%Q.
Proof.
  split; [reflexivity|].
  destruct (handleSave_emits_checked_payload nameRequired
              (Dialog.mkForm null "report" "" "cycle" (val 3%Q) "weekly"
                 (val []))
              (formPayload null "report" "" "cycle" 3) eq_refl)
    as (_ & _ & _ & Htg & _).
  exact (proj1 (Htg 3%Q eq_refl)).
Defined.



(** X18.  The edit dialog of a long-term task that has no start date opens
    with an empty date range and cannot be saved as it is: [handleSave]
    emits nothing, whatever the library's required check says.  In local
    mode no task has a start date. *)
Theorem long_term_without_dates_not_saved
    (required : Dialog.Form -> bool) (task : Task) :
  type task = val "long_term" ->
  startDate task = null ->
  Dialog.f_dateRange (Dialog.toFormModel task) = val []
  /\ Dialog.handleSave required (Dialog.toFormModel task) = None.
Proof.
  intros Hk Hs. unfold Dialog.handleSave, Dialog.validate.
  assert (Hd : Dialog.dateRangeAccepted (Dialog.toFormModel task) = false).
  { unfold Dialog.dateRangeAccepted, Dialog.toFormModel. cbn.
    rewrite Hk, Hs. reflexivity. }
  split.
  - unfold Dialog.toFormModel. cbn. rewrite Hs. cbn.
    now rewrite andb_false_r.
  - rewrite Hd. now rewrite !andb_false_r.
Qed.

Lemma long_term_witness :
  type english = val "long_term" /\ startDate english = null
  /\ Dialog.handleSave nameRequired (Dialog.toFormModel english) = None.
Proof.
  split; [reflexivity|]. split; [reflexivity|].
  exact (proj2 (long_term_without_dates_not_saved nameRequired english
                  eq_refl eq_refl)).
Defined.

(** ** The handlers of the panel and the card *)

(** X19.  With unshared ids, [handleIncrease] shows the message that the
    target is reached exactly when the id finds a task that is neither
    completed nor archived, is below its target, and reaches it with this
    step (progress + 1, as a double, is at or above the target). *)
Theorem goal_message_shown
    (localeCompare : string -> string -> Z) (fl : Q -> Q) (now : string)
    (i : js string)
    (tasks : list Task) :
  NoDup (map id tasks) ->
  (snd (Panel.handleIncrease localeCompare fl now i tasks) = true
   <-> exists task,
         findTask i tasks = Some task
         /\ status task <> "completed" /\ status task <> "archived"
         /\ (progress task < target task)%Q
         /\ (target task <= fl (progress task + 1))%Q).
Proof.
  intro Hn. unfold Panel.handleIncrease, Panel.statusOf. cbn [snd].
  destruct (findTask i tasks) as [task|] eqn:Hf.
  - destruct (increase_step localeCompare fl now i tasks task Hn Hf) as [_ ->].
    cbn [strictEq].
    destruct (String.eqb_spec (status task) "completed") as [Ec|Ec];
      cbn [negb andb].
    + split; [discriminate|]. intros (t & Ht & Hc & _).
      injection Ht as <-. contradiction.
    + destruct (numLt (progress task) (target task)) eqn:El.
      * apply numLt_true in El. rewrite increased_status.
        destruct (String.eqb_spec (status task) "archived") as [Ea|Ea];
          cbn [negb]; rewrite ?andb_false_r, ?andb_true_r.
        -- split.
           ++ intro H. apply String.eqb_eq in H. congruence.
           ++ intros (t & Ht & _ & Ha & _). injection Ht as <-.
              contradiction.
        -- destruct (numLe (target task) (fl (progress task + 1)%Q)) eqn:Et.
           ++ apply numLe_true in Et. split; [|reflexivity].
              intros _. exists task. auto.
           ++ apply numLe_false in Et. split.
              ** intro H. apply String.eqb_eq in H. contradiction.
              ** intros (t & Ht & _ & _ & _ & Hr). injection Ht as <-. lra.
      * apply numLt_false in El. split.
        -- intro H. apply String.eqb_eq in H. contradiction.
        -- intros (t & Ht & _ & _ & Hl & _). injection Ht as <-. lra.
  - unfold increaseProgress. rewrite Hf. cbn [fst]. rewrite Hf.
    cbn. split; [discriminate|]. intros (t & Ht & _). discriminate.
Qed.

Lemma goal_message_witness :
  NoDup (map id [sample "e" "once" 7 8 "active" day1; draft])
  /\ snd (Panel.handleIncrease codeUnitCompare noRounding day2 (val "e")
            [sample "e" "once" 7 8 "active" day1; draft]) = true.
Proof.
  assert (Hn : NoDup (map id [sample "e" "once" 7 8 "active" day1; draft]))
    by (repeat constructor; simpl; intuition discriminate).
  split; [exact Hn|].
  apply (goal_message_shown codeUnitCompare noRounding day2 (val "e")
           [sample "e" "once" 7 8 "active" day1; draft] Hn).
  exists (sample "e" "once" 7 8 "active" day1).
  repeat split; try discriminate; try reflexivity.
Defined.

(** X20.  The restart button shows on a completed task of kind ["cycle"];
    its handler (ids unshared) brings the task back ["active"] with
    progress 0 and the same target, after which the button is gone and the
    [+1] button is enabled. *)
Theorem restart_starts_new_cycle
    (localeCompare : string -> string -> Z) (now : string) (i : js string)
    (tasks : list Task) (task : Task) :
  NoDup (map id tasks) ->
  findTask i tasks = Some task ->
  Card.shouldShowRestart task = true ->
  exists task',
    findTask i (Panel.handleRestart localeCompare now i tasks) = Some task'
    /\ status task' = "active" /\ progress task' = 0%Q
    /\ target task' = target task /\ updatedAt task' = now
    /\ Card.shouldShowRestart task' = false
    /\ Card.increaseDisabled task' = false.
Proof.
  intros Hn Hf Hshow. unfold Card.shouldShowRestart in Hshow.
  apply andb_true_iff in Hshow. destruct Hshow as [Hk _].
  exists (reopened now task). split.
  - unfold Panel.handleRestart, reopenTask. rewrite Hf. cbn [fst].
    apply mutated_found; auto using reopened_id.
  - unfold reopened, Card.shouldShowRestart, Card.increaseDisabled,
      Card.isCompleted, Card.isArchived.
    cbn. rewrite Hk. cbn. rewrite Hk. cbn. repeat split; reflexivity.
Qed.

Lemma restart_witness :
  NoDup (map id [sample "w" "cycle" 3 3 "completed" day1])
  /\ findTask (val "w") [sample "w" "cycle" 3 3 "completed" day1]
     = Some (sample "w" "cycle" 3 3 "completed" day1)
  /\ Card.shouldShowRestart (sample "w" "cycle" 3 3 "completed" day1) = true
  /\ exists task',
       findTask (val "w")
         (Panel.handleRestart codeUnitCompare day2 (val "w")
            [sample "w" "cycle" 3 3 "completed" day1]) = Some task'
       /\ status task' = "active" /\ progress task' = 0%Q.
Proof.
  assert (Hn : NoDup (map id [sample "w" "cycle" 3 3 "completed" day1]))
    by (repeat constructor; simpl; tauto).
  split; [exact Hn|]. split; [reflexivity|]. split; [reflexivity|].
  destruct (restart_starts_new_cycle codeUnitCompare day2 (val "w")
              [sample "w" "cycle" 3 3 "completed" day1]
              (sample "w" "cycle" 3 3 "completed" day1) Hn eq_refl eq_refl)
    as (t & Hfind & Hs & Hp & _).
  exists t. auto.
Defined.

(** X21.  Ids stay unshared: a run of commands in which every generated id
    is new when it is generated takes a store without two tasks of the
    same id to a store without two tasks of the same id. *)
Theorem run_ids_unique
    (localeCompare : string -> string -> Z) (fl : Q -> Q) (cs : list Command)
    (tasks : list Task) :
  NoDup (map id tasks) ->
  freshRun localeCompare fl cs tasks ->
  NoDup (map id (run localeCompare fl cs tasks)).
Proof.
  revert tasks. induction cs as [|c cs IH]; intros tasks Hn Hfresh;
    [exact Hn|].
  destruct Hfresh as [Hc Hrest].
  cbn [run fold_left]. apply IH; [|exact Hrest].
  now apply exec_ids_unique.
Qed.

Lemma run_ids_unique_witness :
  NoDup (map id shelf)
  /\ freshRun codeUnitCompare noRounding
       [Create "n" day4 day4 (formPayload null "new" "" "once" 2);
        Archive day5 (val "n")] shelf
  /\ NoDup (map id (run codeUnitCompare noRounding
                      [Create "n" day4 day4
                         (formPayload null "new" "" "once" 2);
                       Archive day5 (val "n")] shelf)).
Proof.
  assert (Hfresh : freshRun codeUnitCompare noRounding
            [Create "n" day4 day4 (formPayload null "new" "" "once" 2);
             Archive day5 (val "n")] shelf).
  { cbn [freshRun freshId]. split; [|tauto].
    simpl. intuition discriminate. }
  split; [exact shelf_ids|]. split; [exact Hfresh|].
  exact (run_ids_unique codeUnitCompare noRounding _ shelf shelf_ids Hfresh).
Defined.

Lemma substring_prefix (d r : string) :
  String.substring 0 (String.length d) (d ++ r)%string = d.
Proof.
  induction d as [|c d IH]; cbn.
  - now destruct r.
  - now rewrite IH.
Qed.

(** X22.  The card's "latest update" is the first ten characters of the
    update time, the date of a [toISOString] timestamp, and ["-"] when the
    update time is empty. *)
Theorem latestUpdate_shows_date (task : Task) (date rest : string) :
  updatedAt task = (date ++ rest)%string ->
  String.length date = 10%nat ->
  Card.latestUpdate task = date
  /\ (forall t, updatedAt t = "" -> Card.latestUpdate t = "-").
Proof.
  intros E Hlen. split.
  - unfold Card.latestUpdate. rewrite E.
    destruct date as [|c date]; [discriminate|].
    cbn [append String.eqb].
    change (String c (date ++ rest)) with (String c date ++ rest)%string.
    rewrite <- Hlen. apply substring_prefix.
  - intros t Ht. unfold Card.latestUpdate. now rewrite Ht.
Qed.

Lemma latestUpdate_witness :
  updatedAt weekly = ("2025-01-03" ++ "T08:00:00.000Z")%string
  /\ String.length "2025-01-03" = 10%nat
  /\ Card.latestUpdate weekly = "2025-01-03".
Proof.
  split; [reflexivity|]. split; [reflexivity|].
  exact (proj1 (latestUpdate_shows_date weekly "2025-01-03" "T08:00:00.000Z"
                  eq_refl eq_refl)).
Defined.

Lemma panel_percentages_witness :
  TaskCard.rounding noRounding
  /\ Forall fromPanel session
  /\ In (mkTask (val "a") (val "weekly report") "" (val "cycle") 0 2 null
               null null "active" day1 day5)
        (run codeUnitCompare noRounding session
           (fst (refreshTasks codeUnitCompare stampOf false [])))
  /\ 0 <= TaskCard.progressPercentage noRounding
            (mkTask (val "a") (val "weekly report") "" (val "cycle") 0 2
                    null null null "active" day1 day5) <= 100.
Proof.
  assert (Hin : In (mkTask (val "a") (val "weekly report") "" (val "cycle")
                           0 2 null null null "active" day1 day5)
                   (run codeUnitCompare noRounding session
                      (fst (refreshTasks codeUnitCompare stampOf false []))))
    by (vm_compute; auto 10).
  split; [exact TaskCardFacts.exact_rounding|].
  split; [exact session_fromPanel|]. split; [exact Hin|].
  exact (panel_percentages codeUnitCompare noRounding stampOf session _
           TaskCardFacts.exact_rounding session_fromPanel Hin).
Defined.

(** ** Edit: missing keys and nullish keys *)

(** X23.  In an edit (ids unshared) a key the payload does not own leaves
    the field as it was, while a key it owns with [null] or [undefined]
    resets the field to the default of [normalizeTask]: target 1, progress
    0, status ["active"], creation time the time of the call.  The id is
    kept and the update time is that of the call. *)
Theorem edit_missing_and_nullish_keys
    (localeCompare : string -> string -> Z) (now now1 : string)
    (payload : Payload) (tasks : list Task) (task : Task) :
  NoDup (map id tasks) ->
  findTask (get (p_id payload)) tasks = Some task ->
  exists task',
    findTask (get (p_id payload))
      (fst (updateTask localeCompare now now1 payload tasks)) = Some task'
    /\ id task' = id task /\ updatedAt task' = now
    /\ (p_target payload = None -> target task' = target task)
    /\ (p_target payload = Some null \/ p_target payload = Some undefined ->
        target task' = 1%Q)
    /\ (p_progress payload = None -> progress task' = progress task)
    /\ (p_progress payload = Some null
        \/ p_progress payload = Some undefined -> progress task' = 0%Q)
    /\ (p_status payload = None -> status task' = status task)
    /\ (p_status payload = Some null \/ p_status payload = Some undefined ->
        status task' = "active")
    /\ (p_createdAt payload = None -> createdAt task' = createdAt task)
    /\ (p_createdAt payload = Some null
        \/ p_createdAt payload = Some undefined -> createdAt task' = now1).
Proof.
  intros Hn Hf.
  exists (edited now now1 payload (toObject task)).
  split; [now apply edited_found|].
  split; [apply edited_id; apply find_some in Hf; tauto|].
  unfold edited. cbn.
  repeat split; try (intros ->; reflexivity);
    intros [-> | ->]; reflexivity.
Qed.

Lemma edit_keys_witness :
  NoDup (map id [chapters])
  /\ findTask (val "e") [chapters] = Some chapters
  /\ exists task',
       findTask (val "e")
         (fst (updateTask codeUnitCompare day2 day3
                 (mkPayload (Some (val "e")) None None None (Some undefined)
                    None None None None None None None) [chapters]))
       = Some task'
       /\ progress task' = 0%Q /\ target task' = 8%Q.
Proof.
  assert (Hn : NoDup (map id [chapters]))
    by (repeat constructor; simpl; tauto).
  split; [exact Hn|]. split; [reflexivity|].
  destruct (edit_missing_and_nullish_keys codeUnitCompare day2 day3
              (mkPayload (Some (val "e")) None None None (Some undefined)
                 None None None None None None None) [chapters] chapters
              Hn eq_refl)
    as (t & Hfind & _ & _ & Htg & _ & _ & Hp0 & _).
  exists t. split; [exact Hfind|]. split.
  - apply Hp0. now right.
  - now rewrite Htg.
Defined.

(** ** Completed means the target was reached *)

(** X24.  As long as no task is edited, a task whose status is
    ["completed"] has reached its target: create (from the dialog),
    increase-progress, archive, reopen and delete keep this true of every
    task.  An edit that leaves progress and status alone keeps it if and
    only if the task it edits is not completed or the target it stores is
    not above the task's progress. *)
Theorem completed_only_at_target
    (localeCompare : string -> string -> Z) (fl : Q -> Q) (c : Command)
    (tasks : list Task) :
  Forall completedAtTarget tasks ->
  (notEdit c -> fromPanel c ->
   Forall completedAtTarget (fst (exec localeCompare fl c tasks)))
  /\ (forall now now1 payload task n,
        c = Edit now now1 payload ->
        findTask (get (p_id payload)) tasks = Some task ->
        p_progress payload = None -> p_status payload = None ->
        p_target payload = Some (val n) ->
        (Forall completedAtTarget (fst (exec localeCompare fl c tasks))
         <-> (status task = "completed" -> (n <= progress task)%Q))).
Proof.
  intro Hall.
  assert (Hin : forall p x, find p tasks = Some x -> completedAtTarget x).
  { intros p x Hx. apply find_some in Hx.
    rewrite Forall_forall in Hall. apply Hall. tauto. }
  split.
  - intros Hne Hc.
    destruct c as [newId now1 now2 payload|now now1 payload|i|now i|now i
                  |now i]; cbn [exec]; [| contradiction | | | |].
    + destruct Hc as (i & nm & ds & ty & tg & -> & Htg).
      unfold addTask. cbn [fst]. apply sortTasks_Forall.
      constructor; [|exact Hall].
      unfold completedAtTarget. cbn. discriminate.
    + unfold deleteTask. cbn [fst]. now apply Forall_filter_keep.
    + unfold increaseProgress.
      destruct (findTask i tasks) as [task|] eqn:Hf; [|exact Hall].
      destruct (numLt (progress task) (target task)) eqn:El; [|exact Hall].
      cbn [fst]. apply sortTasks_Forall, mutateFound_Forall; [exact Hall|].
      intros x Hx. pose proof (Hin _ _ Hx) as Hx'.
      unfold findTask in Hf. rewrite Hx in Hf. injection Hf as ->.
      apply numLt_true in El.
      unfold completedAtTarget in *.
      destruct (increased_progress fl now task) as [-> ->].
      rewrite increased_status.
      destruct (numLe (target task) (fl (progress task + 1)%Q)) eqn:E;
        cbn [andb].
      * apply numLe_true in E. intros _. exact E.
      * intro Hs. specialize (Hx' Hs). lra.
    + unfold archiveTask.
      destruct (findTask i tasks) as [task|] eqn:Hf; [|exact Hall].
      cbn [fst]. apply sortTasks_Forall, mutateFound_Forall; [exact Hall|].
      intros x _. unfold completedAtTarget. cbn. discriminate.
    + unfold reopenTask.
      destruct (findTask i tasks) as [task|] eqn:Hf; [|exact Hall].
      cbn [fst]. apply sortTasks_Forall, mutateFound_Forall; [exact Hall|].
      intros x _. unfold completedAtTarget, reopened. cbn.
      destruct (strictEq (type x) (val "cycle")); cbn; discriminate.
  - intros now now1 payload task n -> Hf Hp Hs Ht. cbn [exec].
    assert (Hshape :
      status (edited now now1 payload (toObject task)) = status task
      /\ target (edited now now1 payload (toObject task)) = n
      /\ progress (edited now now1 payload (toObject task)) = progress task).
    { unfold edited. cbn. rewrite Hp, Hs, Ht. cbn. auto. }
    destruct Hshape as (Es & Et & Ep).
    destruct (updateTask_found localeCompare now now1 payload tasks task Hf)
      as [-> _].
    split.
    + intros Hres Hdone. rewrite Forall_forall in Hres.
      assert (Hstored : In (edited now now1 payload (toObject task))
                (sortTasks localeCompare
                   (mutateFound (hasId (get (p_id payload)))
                      (fun _ => edited now now1 payload (toObject task))
                      tasks)))
        by exact (mutated_stored localeCompare (get (p_id payload))
                    (fun _ => edited now now1 payload (toObject task))
                    tasks task Hf).
      specialize (Hres _ Hstored). unfold completedAtTarget in Hres.
      rewrite Es, Et, Ep in Hres. now apply Hres.
    + intro Hle.
      apply sortTasks_Forall, mutateFound_Forall; [exact Hall|].
      intros x _. unfold completedAtTarget. rewrite Es, Et, Ep. exact Hle.
Qed.

Lemma nearly_completed : Forall completedAtTarget [nearly].
Proof. repeat constructor. discriminate. Qed.

Lemma shelf_completed : Forall completedAtTarget shelf.
Proof.
  unfold shelf, completedAtTarget.
  constructor; [discriminate|]. constructor; [discriminate|].
  constructor; [|constructor]. intros _. cbn. lra.
Qed.

(** The step that reaches the target completes the task; raising the
    target of a completed task leaves it completed below its target. *)
Lemma completed_only_witness :
  Forall completedAtTarget [nearly]
  /\ fst (exec codeUnitCompare noRounding (IncreaseProgress day2 (val "g"))
            [nearly])
     = [sample "g" "once" 8 8 "completed" day2]
  /\ Forall completedAtTarget
       (fst (exec codeUnitCompare noRounding
               (IncreaseProgress day2 (val "g")) [nearly]))
  /\ Forall completedAtTarget shelf
  /\ ~ Forall completedAtTarget
         (fst (exec codeUnitCompare noRounding (Edit day4 day4 raiseTarget)
                 shelf)).
Proof.
  split; [exact nearly_completed|]. split; [vm_compute; reflexivity|].
  split; [|split; [exact shelf_completed|]].
  - exact (proj1 (completed_only_at_target codeUnitCompare noRounding
                    (IncreaseProgress day2 (val "g")) [nearly]
                    nearly_completed) I I).
  - intro H.
    pose proof (proj1 (proj2 (completed_only_at_target codeUnitCompare
                  noRounding (Edit day4 day4 raiseTarget) shelf
                  shelf_completed)
                  day4 day4 raiseTarget english 40%Q eq_refl eq_refl
                  eq_refl eq_refl eq_refl) H eq_refl) as Hle.
    vm_compute in Hle. now apply Hle.
Defined.
